(** * The PySAL logo generator ([logo/create_pysal_logo.py])

    A shallow embedding of [create_logo] and [create_favicon]: the text of
    the TeX document is assembled by pure functions, the file system and the
    external processes are threaded through a small state-and-exception
    monad.

    What the model covers, and what it leaves out:
    - the file system holds regular files and directories, on one device;
      a location is the list of the components of its absolute path,
      innermost first, so that the entry [f] of a directory [d] is
      [f :: d].  Paths are normalised lexically ([""], ["."] and [".."]),
      which is where the system leads when the directories on the way
      exist; symbolic links and permissions are not modelled.  The working
      directory and the directories above it exist; [os.listdir] lists
      files and directories alike, and [os.rename] fails as [rename(2)]
      does: on a missing source, on a destination whose directory is
      missing, on a directory in the place of a file or a file in the
      place of a directory, on a directory moved into itself.  The [.tex]
      file is taken to be writable where [open] is asked to put it, and
      the programs handed to [subprocess.Popen] are taken to be installed,
      so [open] and [Popen] themselves do not raise; the external programs
      are taken to act on regular files only;
    - [find] is modelled for the two command lines the program builds
      (BSD [find -E ... -regex ... -delete] and [find ... -name ...
      -delete]); every other program (the TeX engine, [convert]) is a
      parameter [exec] of the semantics. *)

From Stdlib Require Import Ascii String List ZArith Lia Bool.
From stdpp Require Import gmap strings list fin_maps pretty.

Local Open Scope string_scope.
Local Open Scope list_scope.

(** ** Text *)

Module Text.

(** Python [str] values are [string]; matching works on the list of
    characters. *)
Definition chars (s : string) : list ascii := list_ascii_of_string s.

(** [sep.join(l)] *)
Fixpoint join (sep : string) (l : list string) : string :=
  match l with
  | [] => ""
  | [x] => x
  | x :: l' => x +:+ sep +:+ join sep l'
  end.

(** [s.startswith(p)] *)
Definition startswith (s p : string) : bool := String.prefix p s.

(** Number of positions of [s] at which [p] occurs (overlapping
    occurrences counted). *)
Fixpoint is_prefix (p s : list ascii) : bool :=
  match p, s with
  | [], _ => true
  | a :: p', b :: s' => if ascii_dec a b then is_prefix p' s' else false
  | _ :: _, [] => false
  end.

Fixpoint occurrences (p s : list ascii) : nat :=
  (if is_prefix p s then 1 else 0) +
  match s with
  | [] => 0
  | _ :: s' => occurrences p s'
  end.

Definition contains (s p : string) : Prop :=
  exists a b, s = a +:+ p +:+ b.

End Text.

(** ** POSIX extended regular expressions, as [find -E -regex] reads them *)

Module Ere.

Inductive regex : Type :=
  | Chr (c : ascii)
  | Any
  | Cat (r1 r2 : regex)
  | Alt (r1 r2 : regex)
  | Star (r : regex)
  | Eps
  | Void.

(** Characters with a meaning of their own in an extended regular
    expression. *)
Definition special (c : ascii) : bool :=
  existsb (fun d => if ascii_dec c d then true else false)
          (Text.chars ".[]\()*+?{}|^$").

(** Postfix operators after an atom.  Only [*], [+] and [?] are read;
    bounds in braces are outside the fragment. *)
Fixpoint postfix (r : regex) (s : list ascii) : regex * list ascii :=
  match s with
  | "*"%char :: s' => postfix (Star r) s'
  | "+"%char :: s' => postfix (Cat r (Star r)) s'
  | "?"%char :: s' => postfix (Alt r Eps) s'
  | _ => (r, s)
  end.

Definition at_branch_end (s : list ascii) : bool :=
  match s with
  | [] => true
  | c :: _ => if ascii_dec c "|" then true else if ascii_dec c ")" then true else false
  end.

(** Recursive descent, one unit of fuel per call.  An empty branch or
    sub-expression, an unbalanced parenthesis, a bracket expression, a
    bound or an anchor make the parse fail. *)
Fixpoint parse_alt (n : nat) (s : list ascii) : option (regex * list ascii) :=
  match n with
  | 0 => None
  | S n =>
      match parse_cat n s with
      | Some (r1, "|"%char :: rest) =>
          match parse_alt n rest with
          | Some (r2, rest') => Some (Alt r1 r2, rest')
          | None => None
          end
      | other => other
      end
  end
with parse_cat (n : nat) (s : list ascii) : option (regex * list ascii) :=
  match n with
  | 0 => None
  | S n =>
      match parse_atom n s with
      | Some (a, rest) =>
          let '(r, rest') := postfix a rest in
          if at_branch_end rest' then Some (r, rest')
          else match parse_cat n rest' with
               | Some (r', rest'') => Some (Cat r r', rest'')
               | None => None
               end
      | None => None
      end
  end
with parse_atom (n : nat) (s : list ascii) : option (regex * list ascii) :=
  match n with
  | 0 => None
  | S n =>
      match s with
      | [] => None
      | "("%char :: rest =>
          match parse_alt n rest with
          | Some (r, ")"%char :: rest') => Some (r, rest')
          | _ => None
          end
      | "\"%char :: c :: rest => Some (Chr c, rest)
      | "."%char :: rest => Some (Any, rest)
      | c :: rest => if special c then None else Some (Chr c, rest)
      end
  end.

(** [regcomp]: the whole pattern must be consumed. *)
Definition compile (p : string) : option regex :=
  let s := Text.chars p in
  match parse_alt (2 * length s + 2) s with
  | Some (r, []) => Some r
  | _ => None
  end.

Fixpoint nullable (r : regex) : bool :=
  match r with
  | Chr _ | Any | Void => false
  | Eps | Star _ => true
  | Cat r1 r2 => nullable r1 && nullable r2
  | Alt r1 r2 => nullable r1 || nullable r2
  end.

Fixpoint deriv (a : ascii) (r : regex) : regex :=
  match r with
  | Chr c => if ascii_dec a c then Eps else Void
  | Any => Eps
  | Eps | Void => Void
  | Cat r1 r2 =>
      if nullable r1 then Alt (Cat (deriv a r1) r2) (deriv a r2)
      else Cat (deriv a r1) r2
  | Alt r1 r2 => Alt (deriv a r1) (deriv a r2)
  | Star r1 => Cat (deriv a r1) (Star r1)
  end.

(** [regexec] anchored at both ends, as [find -regex] uses it. *)
Fixpoint matchb (r : regex) (s : list ascii) : bool :=
  match s with
  | [] => nullable r
  | a :: s' => matchb (deriv a r) s'
  end.

(** The language of an expression. *)
Inductive matches : regex -> list ascii -> Prop :=
  | m_chr c : matches (Chr c) [c]
  | m_any c : matches Any [c]
  | m_eps : matches Eps []
  | m_cat r1 r2 s1 s2 :
      matches r1 s1 -> matches r2 s2 -> matches (Cat r1 r2) (s1 ++ s2)
  | m_alt_l r1 r2 s : matches r1 s -> matches (Alt r1 r2) s
  | m_alt_r r1 r2 s : matches r2 s -> matches (Alt r1 r2) s
  | m_star_nil r : matches (Star r) []
  | m_star_cons r s1 s2 :
      matches r s1 -> matches (Star r) s2 -> matches (Star r) (s1 ++ s2).

(** Characters that stand for themselves. *)
Definition ordinary (c : ascii) : bool := negb (special c).

(** The characters of [w1|w2|...]. *)
Fixpoint bars (w : list ascii) (ws : list (list ascii)) : list ascii :=
  match ws with
  | [] => w
  | v :: ws' => w ++ "|"%char :: bars v ws'
  end.

(** The expression a literal, non-empty word parses to. *)
Fixpoint word (c : ascii) (w : list ascii) : regex :=
  match w with
  | [] => Chr c
  | d :: w' => Cat (Chr c) (word d w')
  end.

(** The expression the alternatives [w1|w2|...] parse to. *)
Fixpoint words (w : list ascii) (ws : list (list ascii)) : regex :=
  match ws with
  | [] => match w with c :: w' => word c w' | [] => Eps end
  | v :: ws' => Alt (match w with c :: w' => word c w' | [] => Eps end) (words v ws')
  end.

End Ere.

(** ** Shell patterns, as [find -name] reads them ([fnmatch]) *)

Module Glob.

(** [*] is any run of characters, [?] any one character, a backslash
    quotes the next character.  A bracket expression is outside the
    fragment and makes the translation fail. *)
Fixpoint compile_chars (s : list ascii) : option Ere.regex :=
  match s with
  | [] => Some Ere.Eps
  | "*"%char :: s' => Ere.Cat (Ere.Star Ere.Any) <$> compile_chars s'
  | "?"%char :: s' => Ere.Cat Ere.Any <$> compile_chars s'
  | "["%char :: _ => None
  | "\"%char :: c :: s' => Ere.Cat (Ere.Chr c) <$> compile_chars s'
  | c :: s' => Ere.Cat (Ere.Chr c) <$> compile_chars s'
  end.

Definition compile (p : string) : option Ere.regex := compile_chars (Text.chars p).

(** Characters with a meaning of their own in a shell pattern. *)
Definition special (c : ascii) : bool :=
  existsb (fun d => if ascii_dec c d then true else false) (Text.chars "*?[\").

(** The expression for the characters [w], each standing for itself,
    followed by [r]. *)
Definition literal (w : list ascii) (r : Ere.regex) : Ere.regex :=
  fold_right (fun c rest => Ere.Cat (Ere.Chr c) rest) r w.

(** A name written plainly: no character with a meaning in a shell
    pattern, and no slash. *)
Definition plain (s : string) : bool :=
  forallb (fun c => negb (special c) && negb (if ascii_dec c "/" then true else false))
          (Text.chars s).

End Glob.

(** ** Files, paths and processes *)

Module Os.

(** A location: the components of an absolute, normalised path, innermost
    first. *)
Abbreviation location := (list string) (only parsing).

(** [s.split(sep)] for a one-character separator. *)
Fixpoint split_on (sep : ascii) (s : string) : list string :=
  match s with
  | EmptyString => [""]
  | String c s' =>
      if ascii_dec c sep then "" :: split_on sep s'
      else match split_on sep s' with
           | x :: xs => String c x :: xs
           | [] => [String c ""]
           end
  end.

(** Walking one component of a path. *)
Definition step (at_ : location) (c : string) : location :=
  if decide (c = "") then at_
  else if decide (c = ".") then at_
  else if decide (c = "..") then tail at_
  else c :: at_.

Definition walk (from : location) (p : string) : location :=
  fold_left step (split_on "/" p) from.

Definition absolute (p : string) : bool := String.prefix "/" p.

(** A name a directory entry can have. *)
Definition legal_name (n : string) : bool :=
  bool_decide (n <> "") && bool_decide (n <> ".") && bool_decide (n <> "..")
  && forallb (fun c => if ascii_dec c "/" then false else true) (Text.chars n).

(** The state the program acts on: the working directory (its path from
    the root, without the leading slash), the regular files, the
    argument vectors of the processes started so far, oldest first, and
    the directories other than the working directory and those above
    it. *)
Record world : Type := World {
  cwd : string;
  files : gmap location string;
  procs : list (list string);
  dirs : gset location
}.

(** [os.getcwd()] *)
Definition getcwd (w : world) : string := "/" +:+ cwd w.

(** The location a path names. *)
Definition resolve (w : world) (p : string) : location :=
  if absolute p then walk [] p else walk [] (getcwd w +:+ "/" +:+ p).

(** The location of the working directory. *)
Definition here (w : world) : location := walk [] (getcwd w).

(** A location with the locations above it, up to the root. *)
Fixpoint tails (l : location) : list location :=
  match l with
  | [] => [[]]
  | _ :: l' => l :: tails l'
  end.

(** The directories that exist: the working directory, those above it, and
    those of [dirs]. *)
Definition all_dirs (w : world) : gset location :=
  dirs w ∪ list_to_set (tails (here w)).

Definition is_dir (w : world) (d : location) : bool :=
  bool_decide (d ∈ all_dirs w).

(** The name of the location [k] when it is an entry of directory [d]; the
    name of an entry is never empty, [.] or [..], and holds no slash. *)
Definition entry_of (d : location) (k : location) : option string :=
  match k with
  | n :: d' => if decide (d' = d) then
                 if legal_name n then Some n else None
               else None
  | [] => None
  end.

(** The names of the regular files of directory [d]. *)
Definition file_entries (d : location) (fs : gmap location string) : list string :=
  omap (entry_of d) (map_to_list fs).*1.

(** The names of the directories of directory [d]. *)
Definition dir_entries (d : location) (w : world) : list string :=
  omap (entry_of d) (elements (all_dirs w)).

(** The names of the entries of directory [d], files and directories. *)
Definition entries (d : location) (w : world) : list string :=
  file_entries d (files w) ++ dir_entries d w.

(** Exceptions the modelled code can raise; the last four are [OSError]
    and three of its subclasses, raised by [os.rename]. *)
Inductive exn : Type :=
  | RuntimeError (msg : string)
  | TypeError
  | FileNotFoundError
  | NotADirectoryError
  | IsADirectoryError
  | OSError.

(** The exceptions of the operating system. *)
Definition os_error (e : exn) : Prop :=
  match e with
  | RuntimeError _ | TypeError => False
  | _ => True
  end.

Inductive outcome (A : Type) : Type :=
  | Ret (a : A)
  | Raise (e : exn).
Arguments Ret {A} a.
Arguments Raise {A} e.

(** Computations: state passing, with the state kept when an exception
    is raised. *)
Definition M (A : Type) : Type := world -> outcome A * world.

Definition ret {A} (a : A) : M A := fun w => (Ret a, w).
Definition raise {A} (e : exn) : M A := fun w => (Raise e, w).
Definition bind {A B} (m : M A) (k : A -> M B) : M B :=
  fun w => match m w with
           | (Ret a, w') => k a w'
           | (Raise e, w') => (Raise e, w')
           end.

Declare Scope os_scope.
Delimit Scope os_scope with os.
Notation "x <- m ;; k" := (bind m (fun x => k))
  (at level 100, m at next level, right associativity) : os_scope.
Notation "m ;; k" := (bind m (fun _ => k))
  (at level 100, right associativity) : os_scope.

(** [for x in l: f(x)], and the list comprehension run for its effects. *)
Fixpoint for_each {A} (f : A -> M unit) (l : list A) : M unit :=
  match l with
  | [] => ret tt
  | x :: l' => bind (f x) (fun _ => for_each f l')
  end.

(** [with open(p, "w") as f: f.write(text)]; the file is taken to be
    writable at [p]. *)
Definition write_file (p text : string) : M unit :=
  fun w =>
    (Ret tt, World (cwd w) (<[resolve w p := text]> (files w)) (procs w) (dirs w)).

(** [os.listdir(d)]: the names of the files and of the directories. *)
Definition listdir (d : string) : M (list string) :=
  fun w => (Ret (entries (resolve w d) w), w).

(** Whether the location [k] is the directory [d] or lies below it. *)
Definition below (d k : location) : bool := bool_decide (d `suffix_of` k).

(** The location [k] once the directory [s] has become [t]. *)
Definition rebase (s t k : location) : location :=
  if below s k then take (length k - length s) k ++ t else k.

(** Whether the directory [d] holds an entry. *)
Definition occupied (w : world) (d : location) : bool :=
  existsb (fun k => below d k && negb (bool_decide (k = d)))
          ((map_to_list (files w)).*1 ++ elements (all_dirs w)).

(** The path of a location, without the leading slash. *)
Definition path_of (l : location) : string := Text.join "/" (rev l).

(** What is wrong with the directory a destination [t] is to lie in:
    [ENOTDIR] when a regular file stands in its way, [ENOENT] when it is
    missing, nothing when it exists. *)
Definition no_parent (w : world) (t : location) : option exn :=
  if is_dir w (tail t) then None
  else if existsb (fun d => bool_decide (is_Some (files w !! d))) (tails (tail t))
       then Some NotADirectoryError
       else Some FileNotFoundError.

(** [os.rename(src, dst)], as [rename(2)] has it.  A regular file at [src]
    is now at [dst], replacing the file that was there; a directory at
    [src] is now at [dst] with all it holds, in the place of the empty
    directory that was there.  Renaming onto the same place does nothing.
    The call fails with [ENOENT] when there is nothing at [src] or the
    directory of [dst] is missing, with [EISDIR] when a file is to replace
    a directory, with [ENOTDIR] when a directory is to replace a file, with
    [EINVAL] when a directory is moved below itself and with [ENOTEMPTY]
    when it is to replace a directory with entries; Python raises
    [OSError] for the last two.  The working directory follows a
    directory above it. *)
Definition rename (src dst : string) : M unit :=
  fun w =>
    let s := resolve w src in
    let t := resolve w dst in
    match files w !! s with
    | Some text =>
        if decide (s = t) then (Ret tt, w)
        else match no_parent w t with
             | Some e => (Raise e, w)
             | None =>
                 if is_dir w t then (Raise IsADirectoryError, w)
                 else (Ret tt,
                       World (cwd w) (<[t := text]> (delete s (files w)))
                             (procs w) (dirs w))
             end
    | None =>
        if negb (is_dir w s) then (Raise FileNotFoundError, w)
        else if decide (s = t) then (Ret tt, w)
        else match no_parent w t with
             | Some e => (Raise e, w)
             | None =>
                 if below s t then (Raise OSError, w)
                 else if bool_decide (is_Some (files w !! t))
                 then (Raise NotADirectoryError, w)
                 else if is_dir w t && occupied w t then (Raise OSError, w)
                 else (Ret tt,
                       World (if below s (here w)
                              then path_of (rebase s t (here w)) else cwd w)
                             (list_to_map
                                (prod_map (rebase s t) id <$> map_to_list (files w)))
                             (procs w)
                             (set_map (rebase s t) (dirs w)))
             end
    end.

(** The move of the entries named [name...] into the directory [dst] meets
    no directory: [dst] exists, and neither the working directory nor [dst]
    holds a directory whose name starts with [name]. *)
Definition clear_to_move (name : string) (dst : location) (w : world) : bool :=
  is_dir w dst
  && forallb (fun k : location =>
                match k with
                | n :: d =>
                    negb ((bool_decide (d = here w) || bool_decide (d = dst))
                          && Text.startswith n name)
                | [] => true
                end)
             (elements (all_dirs w)).

(** The locations passed when the components [cs] of a path are walked
    from [from]; the last is the one the path names. *)
Fixpoint trail (from : location) (cs : list string) : list location :=
  match cs with
  | [] => []
  | c :: cs' => step from c :: trail (step from c) cs'
  end.

(** The move of the entries named [name...] into the directory the path
    [d] names, from the working directory, meets no obstacle: every
    directory on the way exists, so that the path leads where its
    normal form says, and the move meets no directory. *)
Definition moves_freely (name d : string) (w : world) : bool :=
  forallb (is_dir w) (trail (here w) (split_on "/" d))
  && clear_to_move name (walk (here w) d) w.

(** The directory [dn] of the working directory [c] is in place, and no
    regular file bears its name. *)
Definition destination_kept (c dn : string) (w : world) : Prop :=
  cwd w = c
  /\ dn :: walk [] ("/" +:+ c) ∈ dirs w
  /\ files w !! (dn :: walk [] ("/" +:+ c)) = None.

(** The files after the entry [n] of directory [src] is renamed into
    directory [dst]. *)
Definition moved (src dst : location) (fs : gmap location string)
    (n : string) : gmap location string :=
  match fs !! (n :: src) with
  | Some text => <[n :: dst := text]> (delete (n :: src) fs)
  | None => fs
  end.

(** *** [find] *)

(** [find . -type f -maxdepth 1 <test> -delete] with the test given as a
    compiled pattern: [on_path] tells whether the pattern is matched
    against the path [./name] ([-regex]) or the name ([-name]). *)
Definition selected (d : location) (on_path : bool) (r : Ere.regex)
    (k : location) : bool :=
  match k with
  | n :: d' =>
      bool_decide (d' = d) && legal_name n
      && Ere.matchb r (Text.chars (if on_path then "./" +:+ n else n))
  | [] => false
  end.

Definition find_delete (on_path : bool) (pattern : option Ere.regex)
    (d : location) (fs : gmap location string) : gmap location string * Z :=
  match pattern with
  | Some r => (filter (fun kv => selected d on_path r kv.1 = false) fs, 0%Z)
  | None => (fs, 1%Z)
  end.

Definition find_regex_argv (pattern : string) : list string :=
  ["find"; "-E"; "."; "-type"; "f"; "-maxdepth"; "1"; "-regex"; pattern; "-delete"].

Definition find_name_argv (pattern : string) : list string :=
  ["find"; "."; "-type"; "f"; "-maxdepth"; "1"; "-name"; pattern; "-delete"].

(** What an argument vector asks for. *)
Inductive command : Type :=
  | FindRegex (pattern : string)
  | FindName (pattern : string)
  | Other.

Definition classify (argv : list string) : command :=
  match argv with
  | [_; _; _; _; _; _; _; _; p; _] =>
      if decide (argv = find_regex_argv p) then FindRegex p else Other
  | [_; _; _; _; _; _; _; p; _] =>
      if decide (argv = find_name_argv p) then FindName p else Other
  | _ => Other
  end.

(** The programs other than [find]: from the argument vector, the working
    directory and the files, the files left behind and the exit status. *)
Abbreviation programs :=
  (list string -> string -> gmap (list string) string ->
   gmap (list string) string * Z).

Section Processes.

Variable exec : programs.

Definition run (argv : list string) (w : world) : gmap location string * Z :=
  match classify argv with
  | FindRegex p => find_delete true (Ere.compile p) (here w) (files w)
  | FindName p => find_delete false (Glob.compile p) (here w) (files w)
  | Other => exec argv (getcwd w) (files w)
  end.

(** [subprocess.Popen(argv).wait()]: the exit status is the value. *)
Definition popen_wait (argv : list string) : M Z :=
  fun w =>
    let '(fs, status) := run argv w in
    (Ret status, World (cwd w) fs (procs w ++ [argv]) (dirs w)).

End Processes.

End Os.

(** ** The generator *)

Module Logo.
Import Os.
Local Open Scope os_scope.

(** A colour: [("color name", "r, g, b")]. *)
Definition color : Type := string * string.

(** A row of [node_info]: the colour and the text of one child node. *)
Definition node : Type := color * string.

(** Modelled from the spec: the constant [CHILD_NODES] of
    [logo.predefined], a module absent from the sources; the spec requires
    exactly seven node descriptors, and the error message of [create_logo]
    names the same number. *)
Definition CHILD_NODES : nat := 7.

(** Modelled from the spec: the interface of the module [build_tex_file],
    absent from the sources.  Its functions are pure (the spec: template
    assembly is pure construction); their arguments are those
    [create_logo] passes.  The tuple of [level_distances_and_sibling_angles]
    is kept as a list, as it is only passed on. *)
Record build_tex_file : Type := {
  set_header_and_footer :
    string -> string -> list color -> option string -> string * string;
  level_distances_and_sibling_angles : nat -> nat -> list string;
  initialize_tikz : string -> string -> string -> list string -> string;
  create_concept : string -> option string -> string -> string -> string;
  create_child : string -> nat -> string -> string;
  finalize_tikz : string
}.

(** The keyword arguments of [create_logo]; [None] is Python's [None]. *)
Record logo_args : Type := {
  fname : string;
  node_info : option (list node);
  color_format : option string;
  background_color : option color;
  concept_color : option color;
  text_color : option color;
  move_to : option string;
  concept_text : option string;
  concept_font_style : string;
  concept_font_size : string;
  font : string;
  engine : string;
  convert_tikz : string;
  clean_up : list string
}.

(** The keyword arguments of [create_favicon]. *)
Record favicon_args : Type := {
  fav_fname : string;
  fav_node_info : option (list node);
  fav_color_format : option string;
  fav_background_color : option color;
  fav_concept_color : option color;
  fav_text_color : option color;
  fav_move_to : option string;
  fav_concept_text : option string;
  fav_resolution : nat;
  fav_clean_up : bool
}.

(** Truth value of an optional string: [None] and [""] are falsy. *)
Definition truthy (s : option string) : bool :=
  match s with
  | Some s => negb (s =? "")%string
  | None => false
  end.

(** The message of the node count check. *)
Definition err_msg (n : nat) : string :=
  "There must be 7 elements in the logo, " +:+ pretty n +:+ " were passed in.".

(** The pattern handed to [find -regex]. *)
Definition cleanup_pattern (exts : list string) : string :=
  ".*\.(" +:+ Text.join "|" exts +:+ ")".

(** A file type written plainly: not empty, and made of characters that
    stand for themselves in a pattern and can occur in a file name. *)
Definition plain_ext (e : string) : bool :=
  negb (e =? "")%string
  && forallb (fun c => Ere.ordinary c && negb (if ascii_dec c "/" then true else false))
             (Text.chars e).

(** The argument vector of the TeX engine. *)
Definition engine_argv (a : logo_args) : list string :=
  let shell_escape :=
    if negb (convert_tikz a =? "")%string then "--shell-escape" else convert_tikz a in
  [engine a; shell_escape; fname a +:+ ".tex"].

(** [for f in os.listdir(currdir) if f.startswith(name)]: rename into
    ["%s/%s%s" % (currdir, move_to, f)]. *)
Definition move_products (name dest : string) : M unit :=
  fun w =>
    let currdir := getcwd w in
    (fs <- listdir currdir ;;
     for_each (fun f => rename f (currdir +:+ "/" +:+ dest +:+ f))
              (List.filter (fun f => Text.startswith f name) fs)) w.

(** The names of regular files [move_products] renames in the world
    [w]. *)
Definition movable (name : string) (w : world) : list string :=
  List.filter (fun f => Text.startswith f name) (file_entries (here w) (files w)).

(** The move step meets no obstacle: [dest] is falsy, or it ends in a slash
    and names an existing directory, reached through existing directories,
    with no directory named [name...] in the working directory or in that
    directory. *)
Definition move_goes_through (name : string) (dest : option string)
    (w : world) : Prop :=
  truthy dest = false
  \/ exists d, dest = Some (d +:+ "/") /\ moves_freely name d w = true.

Section Generator.

Variable B : build_tex_file.
(** The constant [GRANDCHILD_NODES] of [logo.predefined]. *)
Variable GRANDCHILD_NODES : nat.
Variable exec : programs.

(** The text of the [.tex] file, for the rows and the three colours. *)
Definition tex_document (a : logo_args) (nodes : list node)
    (background concept text : color) : string :=
  let non_node_colors :=
    omap id [background_color a; concept_color a; text_color a] in
  let defined_colors := map fst nodes ++ non_node_colors in
  let '(tex_header, tex_footer) :=
    set_header_and_footer B (font a) (convert_tikz a) defined_colors
                          (color_format a) in
  let leveldistance_siblingangle :=
    level_distances_and_sibling_angles B CHILD_NODES GRANDCHILD_NODES in
  let tex_content :=
    initialize_tikz B (fst background) (fst concept) (fst text)
                    leveldistance_siblingangle in
  let tex_content :=
    tex_content +:+
    create_concept B (fst concept) (concept_text a) (concept_font_style a)
                   (concept_font_size a) in
  let tex_content :=
    fold_left (fun acc (row : node) =>
                 let '(color, text) := row in
                 acc +:+ create_child B (fst color) GRANDCHILD_NODES text)
              nodes tex_content in
  let tex_content := tex_content +:+ finalize_tikz B in
  tex_header +:+ tex_content +:+ tex_footer.

(** The document is compiled: [subprocess.Popen([...]).wait()], the value
    of [wait()] dropped. *)
Definition render (a : logo_args) : M unit :=
  popen_wait exec (engine_argv a) ;; ret tt.

(** [if clean_up:] the files of the listed types are deleted. *)
Definition cleanup (a : logo_args) : M unit :=
  match clean_up a with
  | [] => ret tt
  | _ :: _ =>
      popen_wait exec (find_regex_argv (cleanup_pattern (clean_up a))) ;; ret tt
  end.

(** [if move_to:] the products are moved. *)
Definition relocate (a : logo_args) : M unit :=
  if truthy (move_to a) then move_products (fname a) (default "" (move_to a))
  else ret tt.

(** The world once the document [text] is written, compiled and the
    directory tidied: the state in which the products are moved. *)
Definition products (a : logo_args) (text : string) (w : world) : world :=
  ((write_file (fname a +:+ ".tex") text ;; render a ;; cleanup a) w).2.

Definition create_logo (a : logo_args) : M unit :=
  match node_info a with
  | None => raise TypeError
  | Some nodes =>
      if negb (Nat.eqb (length nodes) CHILD_NODES)
      then raise (RuntimeError (err_msg (length nodes)))
      else
        match background_color a, concept_color a, text_color a with
        | Some background, Some concept, Some text =>
            write_file (fname a +:+ ".tex")
                       (tex_document a nodes background concept text) ;;
            render a ;;
            cleanup a ;;
            relocate a
        | _, _, _ => raise TypeError
        end
  end.

(** The call [create_favicon] makes to [create_logo]: the arguments it
    passes on, the others at their defaults. *)
Definition favicon_logo_args (a : favicon_args) : logo_args := {|
  fname := fav_fname a +:+ "_" +:+ "favicon";
  node_info := fav_node_info a;
  color_format := fav_color_format a;
  background_color := fav_background_color a;
  concept_color := fav_concept_color a;
  text_color := fav_text_color a;
  move_to := fav_move_to a;
  concept_text := fav_concept_text a;
  concept_font_style := "bfseries";
  concept_font_size := "large";
  font := "M+ 1mn";
  engine := "lualatex";
  convert_tikz := ",convert={outfile=\jobname.png}";
  clean_up := ["aux"; "log"; "pdf"]
|}.

(** The argument vector of the image conversion. *)
Definition convert_argv (name : string) (resolution : nat) : list string :=
  let size := pretty resolution +:+ "x" +:+ pretty resolution in
  ["convert"; name +:+ ".png"; "-background"; "white"; "-clone"; "0";
   "-resize"; size; "-extent"; size; "-delete"; "0"; "-alpha"; "off";
   "-colors"; "256"; name +:+ "_" +:+ pretty resolution +:+ ".ico"].

(** The steps of [create_favicon] after the logo is made. *)
Definition favicon_steps (a : favicon_args) (name : string) : M unit :=
  popen_wait exec (convert_argv name (fav_resolution a)) ;;
  (if fav_clean_up a
   then popen_wait exec (find_name_argv (name +:+ ".*")) ;; ret tt
   else ret tt) ;;
  if truthy (fav_move_to a)
  then move_products name (default "" (fav_move_to a))
  else ret tt.

Definition create_favicon (a : favicon_args) : M unit :=
  let name := fname (favicon_logo_args a) in
  create_logo (favicon_logo_args a) ;;
  favicon_steps a name.

End Generator.

(** The child declarations, one per row, in the order of the rows. *)
Definition children (B : build_tex_file) (grandchildren : nat)
    (nodes : list node) : string :=
  fold_right (fun (row : node) rest =>
                create_child B (fst (fst row)) grandchildren (snd row) +:+ rest)
             "" nodes.

(** The colours [create_logo] hands to [set_header_and_footer]. *)
Definition defined_colors (a : logo_args) (nodes : list node) : list color :=
  map fst nodes ++ omap id [background_color a; concept_color a; text_color a].

(** The texts the caller supplies: the root label, the node labels and
    the names of the colours. *)
Definition supplied (a : logo_args) (nodes : list node) : list string :=
  match concept_text a with Some label => [label] | None => [] end
  ++ map snd nodes ++ map fst (defined_colors a nodes).

(** Modelled from the spec: what the functions of [build_tex_file], absent
    from the sources, do with the texts they are given.  The spec: the
    labels and the colour names appear in the assembled text, and there is
    "no escaping or sanitization of input text".  So the root node holds
    the root label as given, a child declaration holds the text of its
    node as given, and the header holds the name of every colour it is to
    define. *)
Record verbatim (B : build_tex_file) : Prop := {
  concept_prints : forall c label style size,
    Text.contains (create_concept B c (Some label) style size) label;
  child_prints : forall c n label,
    Text.contains (create_child B c n label) label;
  header_prints : forall font convert colors format (c : color),
    In c colors ->
    Text.contains (set_header_and_footer B font convert colors format).1 (fst c)
}.

(** A call that passes the checks of [create_logo]: the rows are given and
    are [CHILD_NODES] many, and the three colours are given. *)
Definition checked (a : logo_args) (nodes : list node) : Prop :=
  node_info a = Some nodes /\ length nodes = CHILD_NODES
  /\ is_Some (background_color a) /\ is_Some (concept_color a)
  /\ is_Some (text_color a).

(** What the favicon scenario expects of the TeX engine: given the
    [.tex] file of the favicon, it leaves the image [.png] beside it, and
    whatever else it creates under the derived base name is named
    [<name>.<something>]. *)
Definition engine_makes_image (exec : programs) (a : favicon_args)
    (w : world) : Prop :=
  let name := fname (favicon_logo_args a) in
  forall fs : gmap location string,
    is_Some (fs !! ((name +:+ ".tex") :: here w)) ->
    let fs' := (exec (engine_argv (favicon_logo_args a)) (getcwd w) fs).1 in
    is_Some (fs' !! ((name +:+ ".png") :: here w))
    /\ forall n, Text.startswith n name = true ->
                 is_Some (fs' !! (n :: here w)) ->
                 is_Some (fs !! (n :: here w))
                 \/ Text.startswith n (name +:+ ".") = true.

(** What it expects of [convert]: given the image, it writes the icon
    file named last on its command line, and nothing else under the
    derived base name. *)
Definition convert_makes_icon (exec : programs) (a : favicon_args)
    (w : world) : Prop :=
  let name := fname (favicon_logo_args a) in
  let icon := name +:+ "_" +:+ pretty (fav_resolution a) +:+ ".ico" in
  forall fs : gmap location string,
    is_Some (fs !! ((name +:+ ".png") :: here w)) ->
    let fs' := (exec (convert_argv name (fav_resolution a)) (getcwd w) fs).1 in
    is_Some (fs' !! (icon :: here w))
    /\ forall n, Text.startswith n name = true ->
                 is_Some (fs' !! (n :: here w)) ->
                 is_Some (fs !! (n :: here w)) \/ n = icon.

(** The programs [exec] with other exit statuses. *)
Definition with_status (exec : programs)
    (status : list string -> string -> gmap location string -> Z) : programs :=
  fun argv dir fs =>
  ((exec argv dir fs).1, status argv dir fs).

End Logo.

(** ** Sample data *)

Module Sample.
Import Os Logo.

(** A builder whose pieces print their arguments between fixed marks. *)
Definition builder : build_tex_file := {|
  set_header_and_footer := fun font convert colors format =>
    ("\documentclass[" +:+ convert +:+ "]{standalone}" +:+
     fold_right (fun (c : color) rest => "\definecolor{" +:+ fst c +:+ "}" +:+ rest)
                "" colors,
     "\end{document}");
  level_distances_and_sibling_angles := fun _ _ => [];
  initialize_tikz := fun background concept text _ =>
    "\begin{tikzpicture}[" +:+ background +:+ "," +:+ concept +:+ "," +:+ text +:+ "]";
  create_concept := fun c text style size =>
    "\node[" +:+ c +:+ "]{" +:+ default "None" text +:+ "}";
  create_child := fun c n text => "child[" +:+ c +:+ "]{" +:+ text +:+ "}";
  finalize_tikz := ";\end{tikzpicture}"
|}.

(** [s] without its last four characters when these are [.tex]. *)
Definition tex_stem (s : string) : option string :=
  let n := String.length s in
  if (String.substring (n - 4) 4 s =? ".tex")%string
  then Some (String.substring 0 (n - 4) s) else None.

(** Stand-ins for the tools: an engine that, given an existing
    [name.tex], writes [name.aux], [name.log] and [name.pdf], and
    [name.png] under [--shell-escape]; a [convert] that writes its last
    argument when its input exists.  Both fail otherwise, leaving the
    files as they are. *)
Definition tools : programs := fun argv dir fs =>
  let d := walk [] dir in
  match argv with
  | [_; flag; tex] =>
      match tex_stem tex, fs !! (tex :: d) with
      | Some name, Some _ =>
          let fs := <[(name +:+ ".aux") :: d := "aux"]> fs in
          let fs := <[(name +:+ ".log") :: d := "log"]> fs in
          let fs := <[(name +:+ ".pdf") :: d := "pdf"]> fs in
          (if (flag =? "--shell-escape")%string
           then <[(name +:+ ".png") :: d := "png"]> fs else fs, 0%Z)
      | _, _ => (fs, 1%Z)
      end
  | prog :: input :: rest =>
      if (prog =? "convert")%string then
        match fs !! (input :: d) with
        | Some _ => (<[List.last rest "" :: d := "ico"]> fs, 0%Z)
        | None => (fs, 1%Z)
        end
      else (fs, 127%Z)
  | _ => (fs, 127%Z)
  end.

Definition green : color := ("pysalgreen", "0, 128, 0").

Definition rows (text : string) : list node := repeat (green, text) 7.

(** A directory with a file of another base name and an icon of an
    earlier run, and with two directories, [out] and [sub]. *)
Definition dir0 : world :=
  World "w" {[ ["other.aux"; "w"] := "keep";
               ["logo_favicon_16.ico"; "w"] := "icon16" ]} []
        {[ ["out"; "w"]; ["sub"; "w"] ]}.

(** A directory without files of the base name [logo], and with a
    directory [out]. *)
Definition dir1 : world :=
  World "w" {[ ["other.aux"; "w"] := "keep" ]} [] {[ ["out"; "w"] ]}.

(** A directory that holds a directory named after the base name
    [logo]. *)
Definition dir2 : world :=
  World "w" {[ ["other.aux"; "w"] := "keep" ]} [] {[ ["logo_out"; "w"] ]}.

Definition logo_call (dest : option string) (exts : list string)
    (nodes : list node) : logo_args := {|
  fname := "logo";
  node_info := Some nodes;
  color_format := Some "RGB";
  background_color := Some green;
  concept_color := Some green;
  text_color := Some green;
  move_to := dest;
  concept_text := Some "PySAL";
  concept_font_style := "bfseries";
  concept_font_size := "large";
  font := "M+ 1mn";
  engine := "lualatex";
  convert_tikz := ",convert={outfile=\jobname.png}";
  clean_up := exts
|}.

Definition favicon_call (dest text : option string) : favicon_args := {|
  fav_fname := "logo";
  fav_node_info := Some (rows "");
  fav_color_format := Some "RGB";
  fav_background_color := Some green;
  fav_concept_color := Some green;
  fav_text_color := Some green;
  fav_move_to := dest;
  fav_concept_text := text;
  fav_resolution := 32;
  fav_clean_up := true
|}.

End Sample.

(** * Facts *)

(** ** Text *)

Module TextFacts.
Import Text.

Lemma append_cons (x : ascii) (a b : string) :
  String x a +:+ b = String x (a +:+ b).
Proof. reflexivity. Qed.

Lemma append_empty_l (a : string) : "" +:+ a = a.
Proof. reflexivity. Qed.

Lemma append_assoc (a b c : string) : (a +:+ b) +:+ c = a +:+ b +:+ c.
Proof.
  induction a as [|x a IH]; [reflexivity|].
  rewrite !append_cons. now rewrite IH.
Qed.

Lemma append_empty_r (a : string) : a +:+ "" = a.
Proof.
  induction a as [|x a IH]; [reflexivity|].
  rewrite append_cons. now rewrite IH.
Qed.

Lemma chars_append (a b : string) : chars (a +:+ b) = chars a ++ chars b.
Proof.
  induction a as [|x a IH]; [reflexivity|].
  rewrite append_cons. simpl. now rewrite IH.
Qed.

Lemma chars_inj (a b : string) : chars a = chars b -> a = b.
Proof.
  intros H. rewrite <- (string_of_list_ascii_of_string a),
    <- (string_of_list_ascii_of_string b).
  unfold chars in H. now rewrite H.
Qed.

Lemma startswith_spec (s p : string) :
  startswith s p = true <-> exists t, s = p +:+ t.
Proof.
  unfold startswith. revert s. induction p as [|x p IH]; intros s.
  - destruct s; simpl; split; eauto.
  - destruct s as [|y s]; simpl.
    + split; [discriminate | intros [t Ht]; rewrite append_cons in Ht; discriminate].
    + destruct (ascii_dec x y) as [->|Hne].
      * rewrite IH. split; intros [t Ht]; exists t; rewrite append_cons in *; congruence.
      * split; [discriminate | intros [t Ht]; rewrite append_cons in Ht; congruence].
Qed.

Lemma startswith_append (p t : string) : startswith (p +:+ t) p = true.
Proof. apply startswith_spec. eauto. Qed.

Lemma contains_append_l (s t p : string) : contains s p -> contains (s +:+ t) p.
Proof.
  intros (a & b & ->). exists a, (b +:+ t). now rewrite !append_assoc.
Qed.

Lemma contains_append_r (s t p : string) : contains t p -> contains (s +:+ t) p.
Proof.
  intros (a & b & ->). exists (s +:+ a), b. now rewrite !append_assoc.
Qed.

End TextFacts.

(** ** Regular expressions *)

Module EreFacts.
Import Ere.

Create HintDb ere.
#[local] Hint Constructors matches : ere.

Lemma matches_eps_inv s : matches Eps s -> s = [].
Proof. now inversion 1. Qed.

Lemma matches_chr_inv c s : matches (Chr c) s -> s = [c].
Proof. now inversion 1. Qed.

Lemma matches_cat_inv r1 r2 s :
  matches (Cat r1 r2) s ->
  exists s1 s2, s = s1 ++ s2 /\ matches r1 s1 /\ matches r2 s2.
Proof. inversion 1; subst; eauto. Qed.

Lemma matches_alt_inv r1 r2 s :
  matches (Alt r1 r2) s -> matches r1 s \/ matches r2 s.
Proof. inversion 1; subst; eauto. Qed.

Lemma nullable_matches r : nullable r = true <-> matches r [].
Proof.
  induction r; simpl.
  - split; [discriminate | inversion 1].
  - split; [discriminate | inversion 1].
  - rewrite andb_true_iff, IHr1, IHr2. split.
    + intros [H1 H2]. change (@nil ascii) with (@nil ascii ++ []). eauto with ere.
    + intros H. apply matches_cat_inv in H as (s1 & s2 & Hs & H1 & H2).
      symmetry in Hs. apply app_eq_nil in Hs as [-> ->]. auto.
  - rewrite orb_true_iff, IHr1, IHr2. split.
    + intros [H|H]; eauto with ere.
    + apply matches_alt_inv.
  - split; eauto with ere.
  - split; eauto with ere.
  - split; [discriminate | inversion 1].
Qed.

(** A non-empty word in the language of a star starts with a non-empty
    word of the body. *)
Lemma matches_star_cons_inv r a s :
  matches (Star r) (a :: s) ->
  exists s1 s2, s = s1 ++ s2 /\ matches r (a :: s1) /\ matches (Star r) s2.
Proof.
  intros H. remember (Star r) as r0 eqn:Hr. remember (a :: s) as s0 eqn:Hs.
  revert s Hs. induction H; intros s' Hs; try discriminate.
  injection Hr as ->.
  destruct s1 as [|b s1]; simpl in Hs.
  - apply IHmatches2; auto.
  - injection Hs as -> <-. eauto.
Qed.

Lemma deriv_matches a r : forall s, matches (deriv a r) s <-> matches r (a :: s).
Proof.
  induction r; intros s; simpl.
  - destruct (ascii_dec a c) as [->|Hne]; split; intros H.
    + apply matches_eps_inv in H as ->. constructor.
    + apply matches_chr_inv in H. injection H as ->. constructor.
    + inversion H.
    + apply matches_chr_inv in H. congruence.
  - split; intros H.
    + apply matches_eps_inv in H as ->. constructor.
    + inversion H; subst. constructor.
  - destruct (nullable r1) eqn:Hn.
    + split; intros H.
      * apply matches_alt_inv in H as [H|H].
        -- apply matches_cat_inv in H as (s1 & s2 & -> & H1 & H2).
           apply IHr1 in H1. change (a :: s1 ++ s2) with ((a :: s1) ++ s2).
           eauto with ere.
        -- apply IHr2 in H. apply nullable_matches in Hn.
           change (a :: s) with ([] ++ a :: s). eauto with ere.
      * apply matches_cat_inv in H as (s1 & s2 & Hs & H1 & H2).
        destruct s1 as [|b s1]; simpl in Hs.
        -- subst s2. apply m_alt_r, IHr2, H2.
        -- injection Hs as <- ->. apply m_alt_l. constructor; [apply IHr1|]; auto.
    + split; intros H.
      * apply matches_cat_inv in H as (s1 & s2 & -> & H1 & H2).
        apply IHr1 in H1. change (a :: s1 ++ s2) with ((a :: s1) ++ s2).
        eauto with ere.
      * apply matches_cat_inv in H as (s1 & s2 & Hs & H1 & H2).
        destruct s1 as [|b s1]; simpl in Hs.
        -- apply nullable_matches in H1. congruence.
        -- injection Hs as <- ->. constructor; [apply IHr1|]; auto.
  - split; intros H.
    + apply matches_alt_inv in H as [H|H]; [apply m_alt_l, IHr1 | apply m_alt_r, IHr2]; auto.
    + apply matches_alt_inv in H as [H|H]; [apply m_alt_l, IHr1 | apply m_alt_r, IHr2]; auto.
  - split; intros H.
    + apply matches_cat_inv in H as (s1 & s2 & -> & H1 & H2).
      apply IHr in H1. change (a :: s1 ++ s2) with ((a :: s1) ++ s2).
      eauto with ere.
    + apply matches_star_cons_inv in H as (s1 & s2 & -> & H1 & H2).
      constructor; [apply IHr|]; auto.
  - split; inversion 1.
  - split; inversion 1.
Qed.

Lemma matchb_matches r s : matchb r s = true <-> matches r s.
Proof.
  revert r. induction s as [|a s IH]; intros r; simpl.
  - apply nullable_matches.
  - rewrite IH. apply deriv_matches.
Qed.

Lemma matches_star_any s : matches (Star Any) s.
Proof.
  induction s as [|a s IH]; [constructor|].
  change (a :: s) with ([a] ++ s). constructor; [constructor | exact IH].
Qed.

Lemma matches_word c w s : matches (word c w) s <-> s = c :: w.
Proof.
  revert c s. induction w as [|d w IH]; intros c s; simpl.
  - split; [apply matches_chr_inv | intros ->; constructor].
  - split.
    + intros H. apply matches_cat_inv in H as (s1 & s2 & -> & H1 & H2).
      apply matches_chr_inv in H1 as ->. apply IH in H2 as ->. reflexivity.
    + intros ->. change (c :: d :: w) with ([c] ++ d :: w).
      constructor; [constructor | now apply IH].
Qed.

Lemma matches_word_or_eps w s :
  matches (match w with c :: w' => word c w' | [] => Eps end) s <-> s = w.
Proof.
  destruct w as [|c w].
  - split; [apply matches_eps_inv | intros ->; constructor].
  - apply matches_word.
Qed.

Lemma matches_words w ws s : matches (words w ws) s <-> In s (w :: ws).
Proof.
  revert w. induction ws as [|v ws IH]; intros w.
  - cbn [words]. rewrite matches_word_or_eps. simpl. intuition congruence.
  - cbn [words]. split.
    + intros H. apply matches_alt_inv in H as [H|H].
      * apply matches_word_or_eps in H. left. congruence.
      * right. now apply IH.
    + intros [H|H].
      * apply m_alt_l, matches_word_or_eps. congruence.
      * apply m_alt_r, IH, H.
Qed.

(** The language of [.*\.(w|...)]: the words that end with a dot and one
    of the alternatives. *)
Lemma matches_dot_suffix w ws s :
  matches (Cat (Star Any) (Cat (Chr ".") (words w ws))) s <->
  exists pre v, In v (w :: ws) /\ s = pre ++ "."%char :: v.
Proof.
  split.
  - intros H. apply matches_cat_inv in H as (pre & s2 & -> & _ & H).
    apply matches_cat_inv in H as (d & v & -> & Hd & Hv).
    apply matches_chr_inv in Hd as ->. apply matches_words in Hv. eauto.
  - intros (pre & v & Hv & ->). constructor; [apply matches_star_any|].
    change ("."%char :: v) with (["."%char] ++ v).
    constructor; [constructor | now apply matches_words].
Qed.

(** *** The parser on the patterns the generator builds *)

Lemma parse_alt_S n s :
  parse_alt (S n) s =
  match parse_cat n s with
  | Some (r1, "|"%char :: rest) =>
      match parse_alt n rest with
      | Some (r2, rest') => Some (Alt r1 r2, rest')
      | None => None
      end
  | other => other
  end.
Proof. reflexivity. Qed.

Lemma parse_cat_S n s :
  parse_cat (S n) s =
  match parse_atom n s with
  | Some (a, rest) =>
      let '(r, rest') := postfix a rest in
      if at_branch_end rest' then Some (r, rest')
      else match parse_cat n rest' with
           | Some (r', rest'') => Some (Cat r r', rest'')
           | None => None
           end
  | None => None
  end.
Proof. reflexivity. Qed.

Lemma ordinary_head c rest n r :
  ordinary c = true ->
  parse_atom (S n) (c :: rest) = Some (Chr c, rest)
  /\ postfix r (c :: rest) = (r, c :: rest)
  /\ at_branch_end (c :: rest) = false.
Proof.
  destruct c as [[] [] [] [] [] [] [] []]; intros H; cbv in H;
    try discriminate H; repeat split; reflexivity.
Qed.

Lemma postfix_branch_end r s : at_branch_end s = true -> postfix r s = (r, s).
Proof.
  destruct s as [|c s]; [reflexivity|].
  destruct c as [[] [] [] [] [] [] [] []]; intros H; cbv in H;
    try discriminate H; reflexivity.
Qed.

Lemma parse_cat_word w : forall c n rest,
  ordinary c = true -> forallb ordinary w = true ->
  at_branch_end rest = true -> length w + 2 <= n ->
  parse_cat n (c :: w ++ rest) = Some (word c w, rest).
Proof.
  induction w as [|d w IH]; intros c n rest Hc Hw Hrest Hn;
    destruct n as [|[|n]]; try (simpl in Hn; lia);
    rewrite parse_cat_S.
  - simpl app. destruct (ordinary_head c rest n (Chr c) Hc) as (-> & _ & _).
    rewrite (postfix_branch_end _ _ Hrest), Hrest. reflexivity.
  - simpl in Hw. apply andb_true_iff in Hw as [Hd Hw].
    destruct (ordinary_head c ((d :: w) ++ rest) n (Chr c) Hc) as (-> & _ & _).
    simpl app.
    destruct (ordinary_head d (w ++ rest) n (Chr c) Hd) as (_ & -> & ->).
    rewrite IH; auto. simpl in Hn. lia.
Qed.

Lemma parse_alt_words ws : forall w n rest,
  Forall (fun v => v <> [] /\ forallb ordinary v = true) (w :: ws) ->
  at_branch_end rest = true -> (forall t, rest <> "|"%char :: t) ->
  length (bars w ws) + 3 <= n ->
  parse_alt n (bars w ws ++ rest) = Some (words w ws, rest).
Proof.
  induction ws as [|v ws IH]; intros w n rest Hall Hrest Hbar Hn;
    destruct n as [|n]; try lia; rewrite parse_alt_S;
    inversion Hall as [|? ? [Hne Hw] Hall']; subst;
    destruct w as [|c w]; try congruence;
    simpl in Hw; apply andb_true_iff in Hw as [Hc Hw].
  - simpl bars in *. simpl app. rewrite (parse_cat_word w c n rest); auto.
    + simpl. destruct rest as [|x rest]; [reflexivity|].
      destruct (ascii_dec x "|") as [->|Hx]; [now destruct (Hbar rest)|].
      destruct x as [[] [] [] [] [] [] [] []]; try reflexivity; congruence.
    + simpl in Hn. lia.
  - cbn [bars] in *. rewrite <- app_assoc. simpl app.
    rewrite (parse_cat_word w c n); auto.
    + rewrite IH; auto. rewrite length_app in Hn. simpl in Hn. lia.
    + rewrite length_app in Hn. simpl in Hn. lia.
Qed.

Lemma parse_suffix_pattern w ws n :
  Forall (fun v => v <> [] /\ forallb ordinary v = true) (w :: ws) ->
  length (bars w ws) + 8 <= n ->
  parse_alt n (Text.chars ".*\.(" ++ bars w ws ++ [")"%char]) =
  Some (Cat (Star Any) (Cat (Chr ".") (words w ws)), []).
Proof.
  intros Hall Hn. do 5 (destruct n as [|n]; [lia|]).
  pose proof (parse_alt_words ws w n [")"%char] Hall eq_refl) as H.
  simpl. rewrite H; [reflexivity | congruence | lia].
Qed.

Lemma chars_join_bars e es :
  Text.chars (Text.join "|" (e :: es)) = bars (Text.chars e) (map Text.chars es).
Proof.
  revert e. induction es as [|e' es IH]; intros e; [reflexivity|].
  change (Text.join "|" (e :: e' :: es)) with (e +:+ "|" +:+ Text.join "|" (e' :: es)).
  rewrite !TextFacts.chars_append, IH. reflexivity.
Qed.

End EreFacts.

(** ** Files and paths *)

Module OsFacts.
Import Text TextFacts Os.

(** *** Paths *)

Lemma split_on_cons sep s : exists x xs, split_on sep s = x :: xs.
Proof.
  induction s as [|c s (x & xs & IH)]; simpl; [eauto|].
  destruct (ascii_dec c sep); [eauto|]. rewrite IH. eauto.
Qed.

Lemma split_on_append sep a b :
  split_on sep (a +:+ String sep b) = split_on sep a ++ split_on sep b.
Proof.
  induction a as [|c a IH].
  - rewrite append_empty_l. simpl. destruct (ascii_dec sep sep); [reflexivity | congruence].
  - rewrite append_cons. simpl. rewrite IH.
    destruct (ascii_dec c sep); [reflexivity|].
    destruct (split_on_cons sep a) as (x & xs & ->). reflexivity.
Qed.

Lemma walk_append from a b :
  walk from (a +:+ "/" +:+ b) = walk (walk from a) b.
Proof.
  unfold walk. change ("/" +:+ b) with (String "/" b).
  rewrite split_on_append. apply fold_left_app.
Qed.

Lemma split_on_no_sep sep n :
  forallb (fun c => if ascii_dec c sep then false else true) (chars n) = true ->
  split_on sep n = [n].
Proof.
  induction n as [|c n IH]; simpl; [reflexivity|].
  destruct (ascii_dec c sep); [discriminate|]. intros H. now rewrite IH.
Qed.

Lemma legal_name_spec n :
  legal_name n = true ->
  n <> "" /\ n <> "." /\ n <> ".." /\ split_on "/" n = [n].
Proof.
  unfold legal_name. rewrite !andb_true_iff, !bool_decide_eq_true.
  intros [[[H1 H2] H3] H4]. repeat split; auto using split_on_no_sep.
Qed.

Lemma walk_legal from n : legal_name n = true -> walk from n = n :: from.
Proof.
  intros (H1 & H2 & H3 & H4)%legal_name_spec. unfold walk. rewrite H4. simpl.
  unfold step. repeat (case_decide; [congruence|]). reflexivity.
Qed.

Lemma legal_not_absolute n : legal_name n = true -> absolute n = false.
Proof.
  unfold legal_name, absolute. rewrite !andb_true_iff.
  intros [_ H]. destruct n as [|c n]; [reflexivity|].
  cbn [String.prefix]. destruct (ascii_dec "/" c) as [<-|Hc]; [|reflexivity].
  cbn [chars list_ascii_of_string forallb] in H.
  destruct (ascii_dec "/" "/"); [discriminate | congruence].
Qed.

Lemma absolute_slash s : absolute (String "/" s) = true.
Proof.
  unfold absolute. cbn [String.prefix].
  destruct (ascii_dec "/" "/"); [now destruct s | congruence].
Qed.

Lemma resolve_here w : resolve w (getcwd w) = here w.
Proof. unfold resolve, getcwd. now rewrite append_cons, absolute_slash. Qed.

(** A bare name denotes the entry of the working directory. *)
Lemma resolve_name w n : legal_name n = true -> resolve w n = n :: here w.
Proof.
  intros H. unfold resolve. rewrite (legal_not_absolute _ H).
  rewrite walk_append. now apply walk_legal.
Qed.

(** The path ["%s/%s%s" % (currdir, dest, f)]. *)
Lemma resolve_target w dest f :
  resolve w (getcwd w +:+ "/" +:+ dest +:+ f) = walk (here w) (dest +:+ f).
Proof.
  unfold resolve, here, getcwd. rewrite !append_cons, absolute_slash.
  rewrite <- !append_cons. now rewrite walk_append.
Qed.

Lemma resolve_target_dir w d f :
  legal_name f = true ->
  resolve w (getcwd w +:+ "/" +:+ (d +:+ "/") +:+ f) = f :: walk (here w) d.
Proof.
  intros H. rewrite resolve_target, append_assoc, walk_append.
  now apply walk_legal.
Qed.

(** *** Directory listings *)

Lemma entry_of_Some (d k : location) (n : string) :
  entry_of d k = Some n <-> k = n :: d /\ legal_name n = true.
Proof.
  unfold entry_of. split.
  - destruct k as [|m d']; [discriminate|].
    case_decide; [|discriminate]. destruct (legal_name m) eqn:Hm; [|discriminate].
    intros [= ->]. now subst d'.
  - intros [-> Hn]. rewrite decide_True by reflexivity. now rewrite Hn.
Qed.

Lemma elem_of_file_entries (d : location) (fs : gmap location string) (n : string) :
  n ∈ file_entries d fs <-> legal_name n = true /\ is_Some (fs !! (n :: d)).
Proof.
  unfold file_entries. rewrite list_elem_of_omap. split.
  - intros (k & Hk & Hn). apply list_elem_of_fmap in Hk as ([k' x] & -> & Hk).
    apply elem_of_map_to_list in Hk. simpl in Hn.
    apply entry_of_Some in Hn as [-> Hn]. eauto.
  - intros [Hn [x Hx]]. exists (n :: d). split.
    + apply list_elem_of_fmap. exists (n :: d, x). split; [reflexivity|].
      now apply elem_of_map_to_list.
    + now apply entry_of_Some.
Qed.

Lemma elem_of_dir_entries (d : location) (w : world) (n : string) :
  n ∈ dir_entries d w <-> legal_name n = true /\ is_dir w (n :: d) = true.
Proof.
  unfold dir_entries, is_dir. rewrite list_elem_of_omap, bool_decide_eq_true. split.
  - intros (k & Hk & Hn). apply elem_of_elements in Hk.
    apply entry_of_Some in Hn as [-> Hn]. auto.
  - intros [Hn Hd]. exists (n :: d). split; [now apply elem_of_elements|].
    now apply entry_of_Some.
Qed.

Lemma NoDup_omap_inj {A C} (f : A -> option C) (l : list A) :
  (forall x y z, f x = Some z -> f y = Some z -> x = y) ->
  NoDup l -> NoDup (omap f l).
Proof.
  intros Hinj. induction 1 as [|x l Hx Hl IH]; simpl; [constructor|].
  destruct (f x) as [z|] eqn:Hz; [|exact IH].
  constructor; [|exact IH].
  rewrite list_elem_of_omap. intros (y & Hy & Hfy).
  now rewrite (Hinj _ _ _ Hz Hfy) in Hx.
Qed.

Lemma NoDup_file_entries (d : location) (fs : gmap location string) : NoDup (file_entries d fs).
Proof.
  apply NoDup_omap_inj; [|apply NoDup_fst_map_to_list].
  intros k1 k2 z [-> _]%entry_of_Some [-> _]%entry_of_Some. reflexivity.
Qed.

(** *** Directories *)

Lemma is_dir_files (c : string) (fs fs' : gmap location string)
    (p p' : list (list string)) (ds : gset location) (d : location) :
  is_dir (World c fs p ds) d = is_dir (World c fs' p' ds) d.
Proof. reflexivity. Qed.

Lemma tails_self (l : location) : l ∈ tails l.
Proof. destruct l; left. Qed.

(** The working directory exists. *)
Lemma is_dir_here (w : world) : is_dir w (here w) = true.
Proof.
  apply bool_decide_eq_true, elem_of_union_r, elem_of_list_to_set, tails_self.
Qed.

(** What [clear_to_move] says. *)
Lemma clear_to_move_spec (name : string) (dst : location) (w : world) :
  clear_to_move name dst w = true ->
  is_dir w dst = true
  /\ forall n, startswith n name = true ->
               is_dir w (n :: here w) = false /\ is_dir w (n :: dst) = false.
Proof.
  unfold clear_to_move. intros [Hd Hall]%andb_prop. split; [exact Hd|].
  intros n Hn. rewrite forallb_forall in Hall.
  assert (Hno : forall d, d = here w \/ d = dst -> is_dir w (n :: d) = false).
  { intros d Hor. apply bool_decide_eq_false. intros Hin.
    apply elem_of_elements, list_elem_of_In, Hall in Hin.
    rewrite Hn, andb_true_r in Hin. apply negb_true_iff, orb_false_elim in Hin.
    destruct Hin as [H1%bool_decide_eq_false H2%bool_decide_eq_false].
    destruct Hor; contradiction. }
  split; apply Hno; auto.
Qed.

Lemma moves_freely_clear (name d : string) (w : world) :
  moves_freely name d w = true ->
  clear_to_move name (walk (here w) d) w = true.
Proof. now intros [_ H]%andb_prop. Qed.

Lemma moves_freely_same (name d : string) (w w' : world) :
  cwd w' = cwd w -> dirs w' = dirs w ->
  moves_freely name d w' = moves_freely name d w.
Proof.
  intros Hc Hd. unfold moves_freely, clear_to_move, is_dir, all_dirs, here, getcwd.
  now rewrite Hc, Hd.
Qed.

(** It depends on the working directory and the directories only. *)
Lemma clear_to_move_same (name : string) (dst : location) (w w' : world) :
  cwd w' = cwd w -> dirs w' = dirs w ->
  clear_to_move name dst w' = clear_to_move name dst w.
Proof.
  intros Hc Hd. unfold clear_to_move, is_dir, all_dirs, here, getcwd.
  now rewrite Hc, Hd.
Qed.

Lemma is_dir_same (w w' : world) (d : location) :
  cwd w' = cwd w -> dirs w' = dirs w -> is_dir w' d = is_dir w d.
Proof.
  intros Hc Hd. unfold is_dir, all_dirs, here, getcwd. now rewrite Hc, Hd.
Qed.

Lemma entries_exist (w : world) (n : string) :
  n ∈ entries (here w) w ->
  legal_name n = true
  /\ (is_Some (files w !! (n :: here w)) \/ is_dir w (n :: here w) = true).
Proof.
  unfold entries. intros [Hf | Hd]%elem_of_app.
  - apply elem_of_file_entries in Hf as [? ?]. auto.
  - apply elem_of_dir_entries in Hd as [? ?]. auto.
Qed.

Lemma tails_length (l h : location) : l ∈ tails h -> length l <= length h.
Proof.
  induction h as [|x h IH]; cbn [tails].
  - intros ->%list_elem_of_singleton. reflexivity.
  - intros [-> | Hl]%elem_of_cons; [reflexivity|].
    cbn [length]. specialize (IH Hl). lia.
Qed.

Lemma below_same_length (s k : location) :
  length s = length k -> below s k = true -> s = k.
Proof.
  intros Hlen [x ->]%bool_decide_eq_true. rewrite length_app in Hlen.
  destruct x; [reflexivity | cbn in Hlen; lia].
Qed.

Lemma below_length (s k : location) :
  below s k = true -> length s <= length k.
Proof.
  intros [x ->]%bool_decide_eq_true. rewrite length_app. lia.
Qed.

Lemma rebase_length (s t k : location) :
  below s k = true -> length t <= length (rebase s t k).
Proof.
  intros H. unfold rebase. rewrite H, length_app. lia.
Qed.

(** No directory is listed among the names to move. *)
Lemma clear_to_move_no_dir (name : string) (dst : location) (w : world) :
  clear_to_move name dst w = true ->
  List.filter (fun f => startswith f name) (dir_entries (here w) w) = [].
Proof.
  intros Hclear. apply clear_to_move_spec in Hclear as [_ Hno].
  destruct (List.filter _ _) as [|n l] eqn:Hf; [reflexivity|].
  assert (Hin : In n (List.filter (fun f => startswith f name)
                                  (dir_entries (here w) w)))
    by (rewrite Hf; now left).
  apply filter_In in Hin as [Hin Hn]. apply list_elem_of_In in Hin.
  apply elem_of_dir_entries in Hin as [_ Hd].
  destruct (Hno n Hn) as [Hd' _]. congruence.
Qed.

(** *** Renaming the entries of a directory *)

Lemma moved_lookup_other src dst fs n m :
  m <> n -> moved src dst fs n !! (m :: src) = fs !! (m :: src).
Proof.
  intros Hne. unfold moved. destruct (fs !! (n :: src)) eqn:Hn; [|reflexivity].
  rewrite lookup_insert_ne, lookup_delete_ne; congruence.
Qed.

Section Moves.

Variables src dst : location.

Lemma moves_lookup names : forall fs : gmap location string,
  NoDup names ->
  (forall n, n ∈ names -> is_Some (fs !! (n :: src))) ->
  let fs' := fold_left (moved src dst) names fs in
  (forall n, n ∈ names -> fs' !! (n :: dst) = fs !! (n :: src))
  /\ (dst <> src -> forall n, n ∈ names -> fs' !! (n :: src) = None)
  /\ (forall k, (forall n, n ∈ names -> k <> n :: src /\ k <> n :: dst) ->
             fs' !! k = fs !! k).
Proof.
  induction names as [|n0 names IH]; intros fs Hnd Hin; simpl.
  { split; [|split]; [intros n Hn | intros _ n Hn | auto];
      now apply elem_of_nil in Hn. }
  apply NoDup_cons in Hnd as [Hn0 Hnd].
  destruct (Hin n0) as [c0 Hc0]; [left|].
  assert (Hfs1 : forall m, m <> n0 ->
            moved src dst fs n0 !! (m :: src) = fs !! (m :: src))
    by (intros; now apply moved_lookup_other).
  destruct (IH (moved src dst fs n0) Hnd) as (Ha & Hb & Hc).
  { intros n Hn. rewrite Hfs1; [apply Hin; now right | intros ->; auto]. }
  assert (Hfresh : forall n, n ∈ names ->
            n0 :: src <> n :: src /\ n0 :: src <> n :: dst)
    by (intros n Hn; split; intros Heq; assert (n0 = n) by congruence;
        subst n0; auto).
  assert (Hfresh' : forall n, n ∈ names ->
            n0 :: dst <> n :: src /\ n0 :: dst <> n :: dst)
    by (intros n Hn; split; intros Heq; assert (n0 = n) by congruence;
        subst n0; auto).
  split; [|split].
  - intros n [->|Hn]%elem_of_cons.
    + rewrite Hc by exact Hfresh'. unfold moved. rewrite Hc0.
      now rewrite lookup_insert_eq.
    + rewrite Ha by exact Hn. apply Hfs1. intros ->; auto.
  - intros Hne n [->|Hn]%elem_of_cons.
    + rewrite Hc by exact Hfresh. unfold moved. rewrite Hc0.
      rewrite lookup_insert_ne by congruence. apply lookup_delete_eq.
    + now apply Hb.
  - intros k Hk. rewrite Hc.
    + destruct (Hk n0) as [Hk1 Hk2]; [left|]. unfold moved. rewrite Hc0.
      rewrite lookup_insert_ne, lookup_delete_ne; congruence.
    + intros n Hn. apply Hk. now right.
Qed.

End Moves.

Lemma moved_same (d : location) (fs : gmap location string) (n : string) :
  moved d d fs n = fs.
Proof.
  unfold moved. destruct (fs !! (n :: d)) eqn:Hn; [|reflexivity].
  rewrite insert_delete_eq. now apply insert_id.
Qed.

(** The renames of [move_products] all succeed when they are renames of
    regular files into an existing directory, none of them into the place
    of a directory: the names come from the listing, and no rename removes
    the source of a later one. *)
Lemma for_each_rename (names : list string) :
  forall (c : string) (fs : gmap location string) (p : list (list string))
         (ds : gset location) (d : string),
  Forall (fun n => legal_name n = true) names -> NoDup names ->
  (forall n, n ∈ names -> is_Some (fs !! (n :: walk [] ("/" +:+ c)))) ->
  is_dir (World c fs p ds) (walk (walk [] ("/" +:+ c)) d) = true ->
  (forall n, n ∈ names ->
     is_dir (World c fs p ds) (n :: walk (walk [] ("/" +:+ c)) d) = false) ->
  for_each (fun f => rename f (("/" +:+ c) +:+ "/" +:+ (d +:+ "/") +:+ f))
           names (World c fs p ds)
  = (Ret tt,
     World c (fold_left (moved (walk [] ("/" +:+ c))
                               (walk (walk [] ("/" +:+ c)) d)) names fs) p ds).
Proof.
  induction names as [|n0 names IH]; intros c fs p ds d Hlegal Hnd Hin Hdir Hfree;
    [reflexivity|].
  apply NoDup_cons in Hnd as [Hn0 Hnd].
  apply Forall_cons in Hlegal as [Hl0 Hlegal].
  cbn [for_each fold_left]. unfold bind at 1, rename at 1.
  pose proof (resolve_name (World c fs p ds) n0 Hl0) as Hsrc.
  pose proof (resolve_target_dir (World c fs p ds) d n0 Hl0) as Hdst.
  unfold here, getcwd in Hsrc, Hdst. cbn [cwd files procs dirs] in *.
  rewrite Hsrc, Hdst.
  destruct (Hin n0) as [c0 Hc0]; [left|]. rewrite Hc0.
  assert (Hrest : forall fs', (forall m, m <> n0 ->
                       fs' !! (m :: walk [] ("/" +:+ c))
                       = fs !! (m :: walk [] ("/" +:+ c))) ->
            for_each (fun f => rename f (("/" +:+ c) +:+ "/" +:+ (d +:+ "/") +:+ f))
                     names (World c fs' p ds)
            = (Ret tt,
               World c (fold_left (moved (walk [] ("/" +:+ c))
                                         (walk (walk [] ("/" +:+ c)) d)) names fs')
                     p ds)).
  { intros fs' Hfs'. apply IH; auto.
    - intros n Hn. rewrite Hfs'; [apply Hin; now right | intros ->; auto].
    - intros n Hn. rewrite <- (is_dir_files c fs fs' p p). apply Hfree. now right. }
  destruct (decide (n0 :: walk [] ("/" +:+ c)
                    = n0 :: walk (walk [] ("/" +:+ c)) d)) as [Heq|Hne].
  - assert (Hd : walk (walk [] ("/" +:+ c)) d = walk [] ("/" +:+ c)) by congruence.
    rewrite Hd, moved_same. rewrite Hd in Hrest. now apply Hrest.
  - unfold no_parent. cbn [tail]. rewrite Hdir, (Hfree n0) by left.
    assert (Hmv : moved (walk [] ("/" +:+ c)) (walk (walk [] ("/" +:+ c)) d) fs n0
                  = <[n0 :: walk (walk [] ("/" +:+ c)) d := c0]>
                      (delete (n0 :: walk [] ("/" +:+ c)) fs))
      by (unfold moved; now rewrite Hc0).
    rewrite <- Hmv. apply Hrest.
    intros m Hm. now apply moved_lookup_other.
Qed.

End OsFacts.

(** ** The generator, step by step *)

Module LogoFacts.
Import Text TextFacts Os OsFacts Logo.

(** *** Processes *)

Lemma classify_find_regex p : classify (find_regex_argv p) = FindRegex p.
Proof. unfold classify, find_regex_argv. now rewrite decide_True. Qed.

Lemma classify_find_name p : classify (find_name_argv p) = FindName p.
Proof. unfold classify, find_name_argv. now rewrite decide_True. Qed.

Lemma classify_engine a : classify (engine_argv a) = Other.
Proof. reflexivity. Qed.

Lemma classify_convert name res : classify (convert_argv name res) = Other.
Proof. reflexivity. Qed.

Section Steps.

Variable B : build_tex_file.
Variable G : nat.
Variable exec : programs.

Lemma render_eq a w :
  render exec a w =
  (Ret tt, World (cwd w) (exec (engine_argv a) (getcwd w) (files w)).1
                 (procs w ++ [engine_argv a]) (dirs w)).
Proof.
  unfold render, bind, popen_wait, run. rewrite classify_engine.
  now destruct (exec _ _ _).
Qed.

Lemma cleanup_eq a w :
  cleanup exec a w =
  (Ret tt,
   match clean_up a with
   | [] => w
   | _ :: _ =>
       World (cwd w)
             (find_delete true (Ere.compile (cleanup_pattern (clean_up a)))
                          (here w) (files w)).1
             (procs w ++ [find_regex_argv (cleanup_pattern (clean_up a))])
             (dirs w)
   end).
Proof.
  unfold cleanup. destruct (clean_up a) as [|e es]; [reflexivity|].
  unfold bind, popen_wait, run. rewrite classify_find_regex.
  now destruct (find_delete _ _ _ _).
Qed.

Lemma products_eq a text w :
  products exec a text w =
  (cleanup exec a (render exec a (write_file (fname a +:+ ".tex") text w).2).2).2.
Proof.
  unfold products, bind. cbn [write_file snd]. rewrite render_eq.
  cbn [snd]. now rewrite cleanup_eq.
Qed.

(** A call that passes the checks runs the four steps. *)
Lemma create_logo_checked a nodes background concept text w :
  node_info a = Some nodes -> length nodes = CHILD_NODES ->
  background_color a = Some background -> concept_color a = Some concept ->
  text_color a = Some text ->
  create_logo B G exec a w =
  relocate a (products exec a (tex_document B G a nodes background concept text) w).
Proof.
  intros Hn Hlen Hb Hc Ht. unfold create_logo. rewrite Hn, Hlen, Hb, Hc, Ht.
  cbn [Nat.eqb CHILD_NODES negb]. unfold products, bind.
  cbn [write_file]. rewrite render_eq, cleanup_eq. reflexivity.
Qed.

Lemma create_logo_count a nodes w :
  node_info a = Some nodes -> length nodes <> CHILD_NODES ->
  create_logo B G exec a w = (Raise (RuntimeError (err_msg (length nodes))), w).
Proof.
  intros Hn Hlen. unfold create_logo. rewrite Hn.
  apply Nat.eqb_neq in Hlen. now rewrite Hlen.
Qed.

(** One rename leaves the process log alone, and raises nothing but an
    exception of the operating system. *)
Lemma rename_frame (src dst : string) (w : world) :
  procs (rename src dst w).2 = procs w
  /\ ((rename src dst w).1 = Ret tt
      \/ exists e, (rename src dst w).1 = Raise e /\ os_error e).
Proof.
  assert (Hos : forall e, no_parent w (resolve w dst) = Some e -> os_error e).
  { unfold no_parent. intros e.
    destruct (is_dir w _); [discriminate|].
    destruct (existsb _ _); intros [= <-]; exact I. }
  unfold rename.
  destruct (files w !! resolve w src) as [text|].
  - destruct (decide _); [now auto|].
    destruct (no_parent w _) as [e|] eqn:He;
      [cbn; split; [reflexivity|]; right; exists e; split;
       [reflexivity | now apply Hos] |].
    destruct (is_dir w _); cbn; [|now auto].
    split; [reflexivity|]. right. now exists IsADirectoryError.
  - destruct (is_dir w (resolve w src)); cbn [negb].
    2:{ cbn. split; [reflexivity|]. right. now exists FileNotFoundError. }
    destruct (decide _); [now auto|].
    destruct (no_parent w _) as [e|] eqn:He;
      [cbn; split; [reflexivity|]; right; exists e; split;
       [reflexivity | now apply Hos] |].
    destruct (below _ _).
    { cbn. split; [reflexivity|]. right. now exists OSError. }
    destruct (bool_decide _).
    { cbn. split; [reflexivity|]. right. now exists NotADirectoryError. }
    destruct (_ && _); cbn; [|now auto].
    split; [reflexivity|]. right. now exists OSError.
Qed.

(** So does a sequence of renames. *)
Lemma for_each_rename_frame (target : string -> string) names : forall w,
  let r := for_each (fun f => rename f (target f)) names w in
  procs r.2 = procs w
  /\ (r.1 = Ret tt \/ exists e, r.1 = Raise e /\ os_error e).
Proof.
  induction names as [|n names IH]; intros w; cbn [for_each]; [now auto|].
  unfold bind.
  destruct (rename_frame n (target n) w) as [Hp Hr].
  destruct (rename n (target n) w) as [[[]|e] w1]; cbn [fst snd] in *.
  - destruct (IH w1) as [Hp1 Hr1]. split; [congruence | exact Hr1].
  - split; [exact Hp | exact Hr].
Qed.

Lemma relocate_frame a w :
  procs (relocate a w).2 = procs w
  /\ ((relocate a w).1 = Ret tt
      \/ exists e, (relocate a w).1 = Raise e /\ os_error e).
Proof.
  unfold relocate. destruct (truthy (move_to a)); [|now auto].
  unfold move_products, bind, listdir.
  apply (for_each_rename_frame
           (fun f => getcwd w +:+ "/" +:+ default "" (move_to a) +:+ f)).
Qed.

End Steps.

(** *** The node count check *)

(** C2: when the number of rows differs from seven, [create_logo] raises
    a [RuntimeError] whose message gives the number of rows passed in;
    with seven rows no [RuntimeError] is raised. *)
Theorem node_count_error (B : build_tex_file) (G : nat) (exec : programs)
    (a : logo_args) (nodes : list node) (w : world) :
  node_info a = Some nodes ->
  (length nodes <> 7 ->
   (create_logo B G exec a w).1 =
   Raise (RuntimeError ("There must be 7 elements in the logo, "
                        +:+ pretty (length nodes) +:+ " were passed in.")))
  /\ (length nodes = 7 ->
      forall msg, (create_logo B G exec a w).1 <> Raise (RuntimeError msg)).
Proof.
  intros Hn. split.
  - intros Hlen. now rewrite (create_logo_count B G exec a nodes w Hn Hlen).
  - intros Hlen msg.
    destruct (background_color a) as [b|] eqn:Hb;
      [destruct (concept_color a) as [c|] eqn:Hc;
       [destruct (text_color a) as [t|] eqn:Ht|]|].
    + rewrite (create_logo_checked B G exec a nodes b c t w) by assumption.
      destruct (relocate_frame a
        (products exec a (tex_document B G a nodes b c t) w))
        as (_ & [-> | (e & -> & He)]); [discriminate|].
      intros [= ->]. exact He.
    + unfold create_logo. rewrite Hn, Hlen, Hb, Hc, Ht. discriminate.
    + unfold create_logo. rewrite Hn, Hlen, Hb, Hc. discriminate.
    + unfold create_logo. rewrite Hn, Hlen, Hb. discriminate.
Qed.

Lemma node_count_error_witness :
  (create_logo Sample.builder 3 Sample.tools
     (Sample.logo_call None ["aux"] (repeat (Sample.green, "x") 5)) Sample.dir0).1
  = Raise (RuntimeError "There must be 7 elements in the logo, 5 were passed in.").
Proof.
  refine (proj1 (node_count_error Sample.builder 3 Sample.tools
           (Sample.logo_call None ["aux"] (repeat (Sample.green, "x") 5))
           (repeat (Sample.green, "x") 5) Sample.dir0 eq_refl) _).
  simpl. lia.
Defined.

(** C8: a call rejected by the node count check leaves the world as it
    was: no file is written, deleted or moved and no process is started. *)
Theorem count_error_no_effect (B : build_tex_file) (G : nat) (exec : programs)
    (a : logo_args) (nodes : list node)
    (w : world) :
  node_info a = Some nodes -> length nodes <> 7 ->
  create_logo B G exec a w = (Raise (RuntimeError (err_msg (length nodes))), w)
  /\ files (create_logo B G exec a w).2 = files w
  /\ procs (create_logo B G exec a w).2 = procs w.
Proof.
  intros Hn Hlen. now rewrite (create_logo_count B G exec a nodes w Hn Hlen).
Qed.

Lemma count_error_no_effect_witness :
  files (create_logo Sample.builder 3 Sample.tools
           (Sample.logo_call (Some "out/") ["aux"] []) Sample.dir0).2
  = files Sample.dir0.
Proof.
  refine (proj1 (proj2 (count_error_no_effect Sample.builder 3 Sample.tools
           (Sample.logo_call (Some "out/") ["aux"] []) [] Sample.dir0
           eq_refl _))).
  simpl. lia.
Defined.

(** *** The call of the TeX engine *)

Lemma products_procs exec a text w :
  procs (products exec a text w) =
  procs w ++ engine_argv a ::
    match clean_up a with
    | [] => []
    | _ :: _ => [find_regex_argv (cleanup_pattern (clean_up a))]
    end.
Proof.
  rewrite products_eq, cleanup_eq, render_eq. cbn [snd write_file procs].
  destruct (clean_up a); cbn [procs]; [reflexivity|].
  now rewrite <- app_assoc.
Qed.

(** C9: a call that passes the checks starts the engine once, with three
    arguments: the engine, then [--shell-escape] when [convert_tikz] is
    not empty and the empty string itself when it is, then the [.tex]
    file; the only other process is the [find] of the cleanup. *)
Theorem engine_three_arguments (B : build_tex_file) (G : nat) (exec : programs)
    (a : logo_args) (nodes : list node)
    (w : world) :
  checked a nodes ->
  exists flag,
    procs (create_logo B G exec a w).2 =
      procs w ++ [engine a; flag; fname a +:+ ".tex"] ::
        match clean_up a with
        | [] => []
        | _ :: _ => [find_regex_argv (cleanup_pattern (clean_up a))]
        end
    /\ (convert_tikz a <> "" -> flag = "--shell-escape")
    /\ (convert_tikz a = "" -> flag = "").
Proof.
  intros (Hn & Hlen & [b Hb] & [c Hc] & [t Ht]).
  exists (if negb (convert_tikz a =? "")%string then "--shell-escape"
          else convert_tikz a).
  rewrite (create_logo_checked B G exec a nodes b c t w) by assumption.
  destruct (relocate_frame a (products exec a (tex_document B G a nodes b c t) w))
    as (-> & _).
  rewrite products_procs. split; [reflexivity|].
  split; intros H.
  - apply String.eqb_neq in H. now rewrite H.
  - rewrite H. reflexivity.
Qed.

Lemma engine_three_arguments_witness :
  exists flag,
    procs (create_logo Sample.builder 3 Sample.tools
             (Sample.logo_call None [] (Sample.rows "x")) Sample.dir0).2
    = [["lualatex"; flag; "logo.tex"]]
    /\ flag = "--shell-escape".
Proof.
  destruct (engine_three_arguments Sample.builder 3 Sample.tools
              (Sample.logo_call None [] (Sample.rows "x")) (Sample.rows "x")
              Sample.dir0) as (flag & Hp & Hf & _).
  - repeat split; eauto.
  - exists flag. split; [exact Hp | apply Hf; discriminate].
Defined.

(** *** The exit status of the engine *)

Lemma bind_ext {A C} (m m' : M A) (k k' : A -> M C) w :
  m w = m' w -> (forall x w', k x w' = k' x w') -> bind m k w = bind m' k' w.
Proof.
  intros Hm Hk. unfold bind. rewrite Hm. destruct (m' w) as [[x|e] w']; auto.
Qed.

(** C3: the exit statuses of the programs have no influence on
    [create_logo]: whatever status the engine (or any program) returns,
    zero or not, the outcome and the final world are the same, and a call
    that passes the checks goes on to the cleanup and to the move, on the
    files the engine left. *)
Theorem exit_status_ignored (B : build_tex_file) (G : nat) (exec : programs)
    (status : list string -> string -> gmap location string -> Z)
    (a : logo_args) (w : world) :
  create_logo B G (with_status exec status) a w = create_logo B G exec a w
  /\ forall nodes background concept text,
       node_info a = Some nodes -> length nodes = 7 ->
       background_color a = Some background ->
       concept_color a = Some concept -> text_color a = Some text ->
       create_logo B G (with_status exec status) a w =
       relocate a
         (cleanup exec a
            (render exec a
               (write_file (fname a +:+ ".tex")
                  (tex_document B G a nodes background concept text) w).2).2).2.
Proof.
  assert (Heq : create_logo B G (with_status exec status) a w
                = create_logo B G exec a w).
  { unfold create_logo.
    destruct (node_info a) as [nodes|]; [|reflexivity].
    destruct (negb _); [reflexivity|].
    destruct (background_color a), (concept_color a), (text_color a);
      try reflexivity.
    apply bind_ext; [reflexivity|]. intros _ w1.
    apply bind_ext; [now rewrite !render_eq|]. intros _ w2.
    apply bind_ext; [now rewrite !cleanup_eq|]. reflexivity. }
  split; [exact Heq|].
  intros nodes background concept text Hn Hlen Hb Hc Ht. rewrite Heq.
  rewrite (create_logo_checked B G exec a nodes background concept text w)
    by assumption.
  now rewrite products_eq.
Qed.

Lemma exit_status_ignored_witness :
  procs (create_logo Sample.builder 3
           (with_status Sample.tools (fun _ _ _ => 1%Z))
           (Sample.logo_call None ["aux"] (Sample.rows "x")) Sample.dir0).2
  = [["lualatex"; "--shell-escape"; "logo.tex"];
     find_regex_argv ".*\.(aux)"].
Proof.
  refine (eq_trans (f_equal (fun r : outcome unit * world => procs r.2)
    (proj2 (exit_status_ignored Sample.builder 3 Sample.tools
       (fun _ _ _ => 1%Z) (Sample.logo_call None ["aux"] (Sample.rows "x"))
       Sample.dir0) (Sample.rows "x") Sample.green Sample.green Sample.green
       eq_refl eq_refl eq_refl eq_refl eq_refl)) _).
  vm_compute. reflexivity.
Defined.

(** *** The cleanup *)

Lemma find_delete_lookup (on_path : bool) (r : Ere.regex) (d : location)
    (fs : gmap location string) (k : location) :
  (find_delete on_path (Some r) d fs).1 !! k =
  if selected d on_path r k then None else fs !! k.
Proof.
  unfold find_delete. cbn [fst]. rewrite map_lookup_filter.
  destruct (fs !! k) as [x|]; cbn; [|now destruct (selected _ _ _ _)].
  destruct (selected d on_path r k) eqn:Hs.
  - rewrite option_guard_False; [reflexivity | cbn; congruence].
  - rewrite option_guard_True; reflexivity.
Qed.

Lemma plain_ext_spec e :
  plain_ext e = true ->
  chars e <> [] /\ forallb Ere.ordinary (chars e) = true
  /\ forall t, chars e <> "/"%char :: t.
Proof.
  unfold plain_ext. rewrite andb_true_iff, negb_true_iff, String.eqb_neq.
  intros [Hne Hall]. split; [|split].
  - destruct e; [congruence | discriminate].
  - revert Hall. generalize (chars e) as l. induction l as [|c l IH]; cbn; [auto|].
    rewrite !andb_true_iff. intros [[-> _] H]. auto.
  - intros t Ht. rewrite Ht in Hall. cbn [forallb] in Hall.
    apply andb_true_iff in Hall as [Hc _]. apply andb_true_iff in Hc as [_ Hc].
    destruct (ascii_dec "/" "/"); [discriminate | congruence].
Qed.

Lemma compile_cleanup_pattern e es :
  Forall (fun x => plain_ext x = true) (e :: es) ->
  Ere.compile (cleanup_pattern (e :: es)) =
  Some (Ere.Cat (Ere.Star Ere.Any)
          (Ere.Cat (Ere.Chr ".") (Ere.words (chars e) (map chars es)))).
Proof.
  intros Hall. unfold Ere.compile, cleanup_pattern.
  rewrite !chars_append, EreFacts.chars_join_bars.
  rewrite EreFacts.parse_suffix_pattern; [reflexivity | |].
  - change (chars e :: map chars es) with (map chars (e :: es)).
    apply Forall_map. eapply Forall_impl; [exact Hall|].
    intros x Hx. cbn. now apply plain_ext_spec in Hx as (? & ? & _).
  - rewrite !length_app. cbn [length chars list_ascii_of_string]. lia.
Qed.

(** The names the cleanup pattern selects. *)
Lemma cleanup_pattern_selects e es n :
  Forall (fun x => plain_ext x = true) (e :: es) ->
  Ere.matchb (Ere.Cat (Ere.Star Ere.Any)
                (Ere.Cat (Ere.Chr ".") (Ere.words (chars e) (map chars es))))
             (chars ("./" +:+ n)) = true
  <-> exists stem x, In x (e :: es) /\ n = stem +:+ "." +:+ x.
Proof.
  intros Hall. rewrite EreFacts.matchb_matches, EreFacts.matches_dot_suffix.
  change (chars e :: map chars es) with (map chars (e :: es)). split.
  - intros (pre & v & Hv & Hs). apply in_map_iff in Hv as (x & <- & Hx).
    rewrite Forall_forall in Hall.
    destruct (plain_ext_spec x) as (_ & _ & Hslash);
      [apply Hall; now apply list_elem_of_In|].
    change (chars ("./" +:+ n)) with ("."%char :: "/"%char :: chars n) in Hs.
    destruct pre as [|a [|b pre]]; cbn in Hs.
    + injection Hs as Hs. symmetry in Hs. now apply Hslash in Hs.
    + injection Hs as _ Hs. discriminate.
    + injection Hs as _ _ Hs. exists (string_of_list_ascii pre), x.
      split; [exact Hx|]. apply chars_inj.
      rewrite chars_append. unfold chars at 2.
      now rewrite list_ascii_of_string_of_list_ascii.
  - intros (stem & x & Hx & ->). exists (chars ("./" +:+ stem)), (chars x).
    split; [now apply in_map|].
    now rewrite <- append_assoc, chars_append.
Qed.

(** C1, as amended: with a non-empty list of plainly written file types,
    the cleanup deletes from the working directory exactly the files
    named [stem.e] for a listed type [e], whatever the stem (the base
    name plays no part); every other file is untouched. *)
Theorem cleanup_deletes_by_type (exec : programs) (a : logo_args) (w : world) :
  clean_up a <> [] ->
  Forall (fun e => plain_ext e = true) (clean_up a) ->
  (cleanup exec a w).1 = Ret tt
  /\ (forall stem e,
        In e (clean_up a) -> legal_name (stem +:+ "." +:+ e) = true ->
        files (cleanup exec a w).2 !! ((stem +:+ "." +:+ e) :: here w) = None)
  /\ (forall k : location,
        (forall stem e, In e (clean_up a) -> k <> (stem +:+ "." +:+ e) :: here w) ->
        files (cleanup exec a w).2 !! k = files w !! k).
Proof.
  intros Hne Hall. rewrite cleanup_eq.
  destruct (clean_up a) as [|e es] eqn:Hexts; [congruence|].
  rewrite compile_cleanup_pattern by exact Hall.
  cbn [fst snd files]. split; [reflexivity|]. split.
  - intros stem x Hx Hlegal. rewrite find_delete_lookup.
    unfold selected. rewrite bool_decide_eq_true_2 by reflexivity. rewrite Hlegal.
    cbn [andb]. destruct (Ere.matchb _ _) eqn:Hm; [reflexivity|].
    apply not_true_iff_false in Hm. destruct Hm.
    apply cleanup_pattern_selects; eauto.
  - intros k Hk. rewrite find_delete_lookup.
    destruct (selected _ _ _ k) eqn:Hs; [|reflexivity].
    unfold selected in Hs. destruct k as [|n d]; [discriminate|].
    apply andb_true_iff in Hs as [[Hd _]%andb_true_iff Hm].
    apply bool_decide_eq_true in Hd as ->.
    apply cleanup_pattern_selects in Hm as (stem & x & Hx & ->); [|exact Hall].
    now destruct (Hk stem x Hx).
Qed.

Lemma cleanup_deletes_by_type_witness :
  files (cleanup Sample.tools (Sample.logo_call None ["aux"; "log"] [])
                 Sample.dir0).2 !! ["other.aux"; "w"] = None.
Proof.
  refine (proj1 (proj2 (cleanup_deletes_by_type Sample.tools
            (Sample.logo_call None ["aux"; "log"] []) Sample.dir0 _ _))
          "other" "aux" _ _).
  - discriminate.
  - repeat constructor.
  - simpl. auto.
  - reflexivity.
Defined.

(** C1, as stated, fails: the cleanup of a run for the base name [logo]
    deletes [other.aux], a file whose name does not start with [logo]. *)
Lemma cleanup_ignores_base_name :
  let a := Sample.logo_call None ["aux"; "log"; "pdf"] (Sample.rows "x") in
  let w' := (create_logo Sample.builder 3 Sample.tools a Sample.dir0).2 in
  startswith "other.aux" (fname a) = false
  /\ files Sample.dir0 !! ("other.aux" :: here Sample.dir0) = Some "keep"
  /\ files w' !! ("other.aux" :: here Sample.dir0) = None.
Proof. vm_compute. auto. Qed.

(** *** Moving the products *)

Lemma truthy_dir d : truthy (Some (d +:+ "/")) = true.
Proof. now destruct d. Qed.

Lemma elem_of_movable name w n :
  n ∈ movable name w <->
  legal_name n = true /\ startswith n name = true
  /\ is_Some (files w !! (n :: here w)).
Proof.
  unfold movable. rewrite list_elem_of_In, filter_In, <- list_elem_of_In.
  rewrite elem_of_file_entries. tauto.
Qed.

(** The names [move_products] goes through when no directory is among
    them: those of the regular files. *)
Lemma listed_to_move (name : string) (dst : location) (w : world) :
  clear_to_move name dst w = true ->
  List.filter (fun f => startswith f name) (entries (here w) w) = movable name w.
Proof.
  intros Hclear. unfold entries, movable.
  rewrite List.filter_app, (clear_to_move_no_dir name dst w Hclear).
  apply app_nil_r.
Qed.

Lemma move_products_dir (name d : string) (w : world) :
  clear_to_move name (walk (here w) d) w = true ->
  move_products name (d +:+ "/") w =
  (Ret tt,
   World (cwd w)
         (fold_left (moved (here w) (walk (here w) d)) (movable name w) (files w))
         (procs w) (dirs w)).
Proof.
  intros Hclear.
  unfold move_products, bind, listdir. cbn [fst snd]. rewrite resolve_here.
  rewrite (listed_to_move name _ w Hclear).
  apply clear_to_move_spec in Hclear as [Hdir Hfree].
  destruct w as [c fs p ds]. unfold movable, here, getcwd in *.
  cbn [cwd files procs dirs] in *.
  apply for_each_rename.
  - apply Forall_forall. intros n Hn.
    now apply (elem_of_movable name (World c fs p ds)) in Hn as (? & _).
  - apply NoDup_ListNoDup, List.NoDup_filter, NoDup_ListNoDup, NoDup_file_entries.
  - intros n Hn.
    now apply (elem_of_movable name (World c fs p ds)) in Hn as (_ & _ & ?).
  - exact Hdir.
  - intros n Hn.
    apply (elem_of_movable name (World c fs p ds)) in Hn as (_ & Hn & _).
    now apply Hfree.
Qed.

Lemma relocate_dir (a : logo_args) (d : string) (w : world) :
  move_to a = Some (d +:+ "/") ->
  clear_to_move (fname a) (walk (here w) d) w = true ->
  relocate a w =
  (Ret tt,
   World (cwd w)
         (fold_left (moved (here w) (walk (here w) d)) (movable (fname a) w)
                    (files w))
         (procs w) (dirs w)).
Proof.
  intros H Hclear. unfold relocate. rewrite H, truthy_dir.
  now apply move_products_dir.
Qed.

(** Where the files are after the move into the directory [d]. *)
Lemma relocate_dir_lookup (a : logo_args) (d : string) (w : world) :
  move_to a = Some (d +:+ "/") ->
  clear_to_move (fname a) (walk (here w) d) w = true ->
  (relocate a w).1 = Ret tt
  /\ (forall n, legal_name n = true -> startswith n (fname a) = true ->
             is_Some (files w !! (n :: here w)) ->
             files (relocate a w).2 !! (n :: walk (here w) d)
             = files w !! (n :: here w))
  /\ (walk (here w) d <> here w ->
      forall n, legal_name n = true -> startswith n (fname a) = true ->
                files (relocate a w).2 !! (n :: here w) = None)
  /\ (forall k : location,
        (forall n, legal_name n = true -> startswith n (fname a) = true ->
                   k <> n :: here w /\ k <> n :: walk (here w) d) ->
        files (relocate a w).2 !! k = files w !! k).
Proof.
  intros Hd Hclear. rewrite (relocate_dir a d w Hd Hclear). cbn [fst snd files].
  destruct (moves_lookup (here w) (walk (here w) d) (movable (fname a) w)
              (files w)) as (Ha & Hb & Hc).
  { apply NoDup_ListNoDup, List.NoDup_filter, NoDup_ListNoDup, NoDup_file_entries. }
  { intros n Hn. now apply elem_of_movable in Hn as (_ & _ & ?). }
  split; [reflexivity|]. split; [|split].
  - intros n Hl Hp Hin. apply Ha. now apply elem_of_movable.
  - intros Hne n Hl Hp. destruct (files w !! (n :: here w)) as [c|] eqn:Hn.
    + apply Hb; [exact Hne|]. apply elem_of_movable. rewrite Hn. eauto.
    + rewrite Hc; [exact Hn|]. intros m Hm.
      apply elem_of_movable in Hm as (_ & _ & Hm).
      split; intros Heq; assert (n = m) by congruence; subst m;
        rewrite Hn in Hm; destruct Hm as [? Hm]; discriminate.
  - intros k Hk. apply Hc. intros n Hn.
    apply elem_of_movable in Hn as (? & ? & _). now apply Hk.
Qed.

Lemma products_cwd exec a text w : cwd (products exec a text w) = cwd w.
Proof.
  rewrite products_eq, cleanup_eq, render_eq. cbn [snd write_file cwd].
  now destruct (clean_up a).
Qed.

Lemma products_here exec a text w : here (products exec a text w) = here w.
Proof. unfold here, getcwd. now rewrite products_cwd. Qed.

Lemma products_dirs exec a text w : dirs (products exec a text w) = dirs w.
Proof.
  rewrite products_eq, cleanup_eq, render_eq. cbn [snd write_file dirs].
  now destruct (clean_up a).
Qed.

(** The engine and the cleanup leave the directories as they are. *)
Lemma clear_to_move_products exec a text (name : string) (dst : location)
    (w : world) :
  clear_to_move name dst (products exec a text w) = clear_to_move name dst w.
Proof.
  unfold clear_to_move, is_dir, all_dirs.
  now rewrite products_here, products_dirs.
Qed.

(** C4: the move step at [move_to = "out"], the name of an existing
    directory written without a slash after it.  The docstring has it
    that the output is moved to the directory; the target is built as
    ["%s/%s%s" % (currdir, move_to, f)], without a separator between
    [move_to] and the name, so the image [logo.png] left by the cleanup is
    not renamed into the directory [out] under its own name: it stays in
    the working directory, as [outlogo.png]. *)
Lemma move_without_separator :
  let a := Sample.logo_call (Some "out") ["aux"; "log"; "pdf"] (Sample.rows "x") in
  let w := Sample.dir0 in
  let w1 := products Sample.tools a
              (tex_document Sample.builder 3 a (Sample.rows "x")
                 Sample.green Sample.green Sample.green) w in
  let w' := (create_logo Sample.builder 3 Sample.tools a w).2 in
  truthy (move_to a) = true
  /\ startswith "logo.png" (fname a) = true
  /\ files w1 !! ("logo.png" :: here w) = Some "png"
  /\ files w' !! ("logo.png" :: walk (here w) "out") = None
  /\ files w' !! ("outlogo.png" :: here w) = Some "png"
  /\ is_dir w (walk (here w) "out") = true.
Proof. vm_compute. auto 7. Qed.

(** *** The text of the document *)

Lemma fold_children (B : build_tex_file) (G : nat) (nodes : list node) :
  forall acc,
  fold_left (fun acc (row : node) =>
               let '(color, text) := row in
               acc +:+ create_child B (fst color) G text) nodes acc
  = acc +:+ children B G nodes.
Proof.
  unfold children.
  induction nodes as [|[color label] nodes IH]; intros acc;
    cbn [fold_left fold_right fst snd].
  - now rewrite append_empty_r.
  - now rewrite IH, append_assoc.
Qed.

Lemma tex_document_eq (B : build_tex_file) (G : nat) (a : logo_args)
    (nodes : list node) (background concept text : color) :
  tex_document B G a nodes background concept text =
  (set_header_and_footer B (font a) (convert_tikz a) (defined_colors a nodes)
                         (color_format a)).1
  +:+ initialize_tikz B (fst background) (fst concept) (fst text)
        (level_distances_and_sibling_angles B CHILD_NODES G)
  +:+ create_concept B (fst concept) (concept_text a) (concept_font_style a)
        (concept_font_size a)
  +:+ children B G nodes
  +:+ finalize_tikz B
  +:+ (set_header_and_footer B (font a) (convert_tikz a) (defined_colors a nodes)
                             (color_format a)).2.
Proof.
  unfold tex_document, defined_colors.
  destruct (set_header_and_footer B _ _ _ _) as [hdr ftr]. cbn [fst snd].
  rewrite fold_children. now rewrite !append_assoc.
Qed.

(** *** The favicon: the call of [create_logo] *)

(** C5, as amended: [create_favicon] derives the base name by appending
    [_favicon] and runs [create_logo] on it with the root label it was
    itself given, passed on unchanged (empty only when the caller passes
    an empty one): the root node of the document written is built from
    that label. *)
Theorem favicon_passes_label (B : build_tex_file) (G : nat) (exec : programs)
    (a : favicon_args) (w : world) :
  fname (favicon_logo_args a) = fav_fname a +:+ "_favicon"
  /\ concept_text (favicon_logo_args a) = fav_concept_text a
  /\ create_favicon B G exec a w =
     bind (create_logo B G exec (favicon_logo_args a))
          (fun _ => favicon_steps exec a (fav_fname a +:+ "_favicon")) w
  /\ forall nodes background concept text,
       contains (tex_document B G (favicon_logo_args a) nodes
                              background concept text)
                (create_concept B (fst concept) (fav_concept_text a)
                                "bfseries" "large").
Proof.
  repeat split. intros nodes background concept text.
  rewrite tex_document_eq.
  do 2 apply contains_append_r. apply contains_append_l.
  exists "", "". now rewrite append_empty_r.
Qed.

(** C5, as stated, fails: called with the root label [PySAL],
    [create_favicon] calls [create_logo] with that label, not an empty
    one. *)
Lemma favicon_label_not_emptied :
  let a := Sample.favicon_call None (Some "PySAL") in
  concept_text (favicon_logo_args a) = Some "PySAL"
  /\ concept_text (favicon_logo_args a) <> Some ""
  /\ concept_text (favicon_logo_args a) <> None.
Proof. repeat split; discriminate. Qed.

(** *** What the document holds *)

Lemma contains_trans s t p : contains s t -> contains t p -> contains s p.
Proof.
  intros (a & b & ->) (c & d & ->). exists (a +:+ c), (d +:+ b).
  now rewrite !append_assoc.
Qed.

Lemma contains_nonempty s p : contains s p -> p <> "" -> s <> "".
Proof.
  intros (a & b & ->) Hp Hs. apply Hp.
  destruct a; [|discriminate]. destruct p; [reflexivity | discriminate].
Qed.

Lemma children_app (B : build_tex_file) (G : nat) (l1 l2 : list node) :
  children B G (l1 ++ l2) = children B G l1 +:+ children B G l2.
Proof.
  unfold children. induction l1 as [|row l1 IH]; cbn [app fold_right];
    [reflexivity|].
  now rewrite IH, append_assoc.
Qed.

Lemma children_contains (B : build_tex_file) (G : nat) (nodes : list node)
    (row : node) :
  In row nodes ->
  contains (children B G nodes) (create_child B (fst (fst row)) G (snd row)).
Proof.
  intros (l1 & l2 & ->)%in_split. rewrite children_app.
  apply contains_append_r. exists "", (children B G l2). reflexivity.
Qed.

(** C7, as amended: for a call that passes the checks, the text written
    to the [.tex] file is the header, the preamble, the root node, one
    child declaration per row in the order of the rows, the closing of
    the picture ([finalize_tikz]) and the footer, in this order.  When the
    pieces hold the texts they are given as they are, the text contains
    the root label, every node label and every colour name at least once,
    and is not empty as soon as one of these is not. *)
Theorem document_assembled (B : build_tex_file) (G : nat) (exec : programs)
    (a : logo_args) (nodes : list node) (background concept text : color)
    (w : world) :
  node_info a = Some nodes -> length nodes = 7 ->
  background_color a = Some background -> concept_color a = Some concept ->
  text_color a = Some text ->
  let doc := tex_document B G a nodes background concept text in
  let pieces := set_header_and_footer B (font a) (convert_tikz a)
                  (defined_colors a nodes) (color_format a) in
  doc = pieces.1
        +:+ initialize_tikz B (fst background) (fst concept) (fst text)
              (level_distances_and_sibling_angles B CHILD_NODES G)
        +:+ create_concept B (fst concept) (concept_text a)
              (concept_font_style a) (concept_font_size a)
        +:+ children B G nodes
        +:+ finalize_tikz B
        +:+ pieces.2
  /\ (forall before row after, nodes = before ++ row :: after ->
        children B G nodes =
        children B G before
        +:+ create_child B (fst (fst row)) G (snd row)
        +:+ children B G after)
  /\ create_logo B G exec a w = relocate a (products exec a doc w)
  /\ (verbatim B ->
      (forall p, In p (supplied a nodes) -> contains doc p)
      /\ ((exists p, In p (supplied a nodes) /\ p <> "") -> doc <> "")).
Proof.
  intros Hn Hlen Hb Hc Ht doc pieces.
  assert (Hdoc : doc = pieces.1
        +:+ initialize_tikz B (fst background) (fst concept) (fst text)
              (level_distances_and_sibling_angles B CHILD_NODES G)
        +:+ create_concept B (fst concept) (concept_text a)
              (concept_font_style a) (concept_font_size a)
        +:+ children B G nodes
        +:+ finalize_tikz B
        +:+ pieces.2) by apply tex_document_eq.
  split; [exact Hdoc|]. split; [|split].
  - intros before row after ->. rewrite children_app.
    unfold children at 2. cbn [fold_right]. reflexivity.
  - now apply create_logo_checked.
  - intros HB.
    assert (Hall : forall p, In p (supplied a nodes) -> contains doc p).
    { intros p Hp. rewrite Hdoc. unfold supplied in Hp.
      apply in_app_or in Hp as [Hp | Hp]; [|apply in_app_or in Hp as [Hp | Hp]].
      - destruct (concept_text a) as [label|]; [|now destruct Hp].
        destruct Hp as [<- | []].
        do 2 apply contains_append_r. apply contains_append_l.
        apply (concept_prints B HB).
      - apply in_map_iff in Hp as (row & <- & Hrow).
        do 3 apply contains_append_r. apply contains_append_l.
        apply (contains_trans _ (create_child B (fst (fst row)) G (snd row)));
          [now apply children_contains | apply (child_prints B HB)].
      - apply in_map_iff in Hp as (c & <- & Hcol).
        apply contains_append_l. now apply (header_prints B HB). }
    split; [exact Hall|].
    intros (p & Hp & Hne). eapply contains_nonempty; eauto.
Qed.

Lemma sample_builder_verbatim : verbatim Sample.builder.
Proof.
  split.
  - intros c label style size. exists ("\node[" +:+ c +:+ "]{"), "}".
    cbn. now rewrite !append_assoc.
  - intros c n label. exists ("child[" +:+ c +:+ "]{"), "}".
    cbn. now rewrite !append_assoc.
  - intros font convert colors format c Hc. cbn [Sample.builder set_header_and_footer fst].
    apply contains_append_r. apply contains_append_r. apply contains_append_r.
    induction colors as [|c' colors IH]; [now destruct Hc|].
    cbn [fold_right]. destruct Hc as [-> | Hc].
    + apply contains_append_r, contains_append_l. exists "", "".
      now rewrite append_empty_r.
    + do 3 apply contains_append_r. now apply IH.
Qed.

Lemma document_assembled_witness :
  contains (tex_document Sample.builder 3
              (Sample.logo_call None [] (Sample.rows "lib")) (Sample.rows "lib")
              Sample.green Sample.green Sample.green) "pysalgreen".
Proof.
  refine (proj1 (proj2 (proj2 (proj2 (document_assembled Sample.builder 3
     Sample.tools (Sample.logo_call None [] (Sample.rows "lib"))
     (Sample.rows "lib") Sample.green Sample.green Sample.green Sample.dir0
     eq_refl eq_refl eq_refl eq_refl eq_refl))) sample_builder_verbatim)
     "pysalgreen" _).
  cbn. auto 20.
Defined.

(** C7, as stated, fails whatever the builder: with empty node labels
    (nodes without text) the text cannot both be non-empty and hold the
    label of each node exactly once, as the empty label occurs at every
    position of the text. *)
Lemma empty_label_not_once :
  ~ exists (B : build_tex_file) (G : nat),
      let doc := tex_document B G (Sample.logo_call None [] (Sample.rows ""))
                   (Sample.rows "") Sample.green Sample.green Sample.green in
      doc <> ""
      /\ forall row, In row (Sample.rows "") ->
                     occurrences (chars (snd row)) (chars doc) = 1.
Proof.
  intros (B & G & Hne & Hocc). apply Hne.
  specialize (Hocc (Sample.green, "") (or_introl eq_refl)). cbn [snd chars] in Hocc.
  destruct (tex_document B G _ _ _ _ _) as [|c doc]; [reflexivity|].
  cbn in Hocc. destruct (list_ascii_of_string doc); discriminate.
Qed.

(** Occurrences add up over concatenation, for a non-empty word. *)
Lemma is_prefix_app p s t : is_prefix p s = true -> is_prefix p (s ++ t) = true.
Proof.
  revert s. induction p as [|a p IH]; intros [|b s]; cbn; try discriminate; auto.
  destruct (ascii_dec a b); [apply IH | discriminate].
Qed.

Lemma is_prefix_refl_app p t : is_prefix p (p ++ t) = true.
Proof.
  induction p as [|a p IH]; cbn; [reflexivity|].
  destruct (ascii_dec a a); [exact IH | congruence].
Qed.

Lemma occurrences_app p s t :
  p <> [] -> occurrences p s + occurrences p t <= occurrences p (s ++ t).
Proof.
  intros Hp. induction s as [|x s IH].
  - destruct p; [congruence|]. cbn. lia.
  - cbn [app occurrences]. destruct (is_prefix p (x :: s)) eqn:H.
    + change (x :: s ++ t) with ((x :: s) ++ t). rewrite is_prefix_app by exact H. lia.
    + destruct (is_prefix p (x :: s ++ t)); lia.
Qed.

Lemma occurrences_prefix p s : is_prefix p s = true -> 1 <= occurrences p s.
Proof. intros H. destruct s; cbn [occurrences]; rewrite H; lia. Qed.

Lemma contains_occurs s p :
  contains s p -> p <> "" -> 1 <= occurrences (chars p) (chars s).
Proof.
  intros (a & b & ->) Hp. rewrite !chars_append.
  assert (Hne : chars p <> []) by (destruct p; [congruence | discriminate]).
  pose proof (occurrences_app (chars p) (chars a) (chars p ++ chars b) Hne).
  pose proof (occurrences_prefix (chars p) (chars p ++ chars b)
                (is_prefix_refl_app _ _)).
  lia.
Qed.

Lemma children_one (B : build_tex_file) (G : nat) (c : color) (label : string) :
  verbatim B -> contains (children B G [(c, label)]) label.
Proof.
  intros HB. unfold children. cbn [fold_right fst snd].
  apply contains_append_l, (child_prints B HB).
Qed.

(** With a builder that prints the labels as they are, a label borne by
    two nodes occurs at least twice: "once" cannot be read as a count for
    non-empty labels either. *)
Lemma repeated_label_occurs_twice (B : build_tex_file) (G : nat) (a : logo_args)
    (before between after : list node) (c1 c2 background concept text : color)
    (label : string) :
  verbatim B -> label <> "" ->
  2 <= occurrences (chars label)
         (chars (tex_document B G a
                   (before ++ (c1, label) :: between ++ (c2, label) :: after)
                   background concept text)).
Proof.
  intros HB Hne. rewrite tex_document_eq.
  assert (Hp : chars label <> []) by (destruct label; [congruence | discriminate]).
  change ((c1, label) :: between ++ (c2, label) :: after)
    with ([(c1, label)] ++ between ++ [(c2, label)] ++ after).
  rewrite !children_app, !chars_append.
  pose proof (contains_occurs _ _ (children_one B G c1 label HB) Hne) as H1.
  pose proof (contains_occurs _ _ (children_one B G c2 label HB) Hne) as H2.
  set (p := chars label) in *.
  set (k1 := chars (children B G [(c1, label)])) in *.
  set (k2 := chars (children B G [(c2, label)])) in *.
  repeat match goal with
         | |- context [occurrences p (?s ++ ?t)] =>
             lazymatch goal with
             | _ : occurrences p s + occurrences p t <= occurrences p (s ++ t) |- _ =>
                 fail
             | _ => pose proof (occurrences_app p s t Hp)
             end
         | _ : context [occurrences p (?s ++ ?t)] |- _ =>
             lazymatch goal with
             | _ : occurrences p s + occurrences p t <= occurrences p (s ++ t) |- _ =>
                 fail
             | _ => pose proof (occurrences_app p s t Hp)
             end
         end.
  lia.
Qed.

(** *** The pattern of the favicon cleanup *)

Lemma compile_chars_plain w : forall s,
  forallb (fun c => negb (Glob.special c)) w = true ->
  Glob.compile_chars (w ++ s) = Glob.literal w <$> Glob.compile_chars s.
Proof.
  induction w as [|c w IH]; intros s Hw.
  - cbn. now destruct (Glob.compile_chars s).
  - cbn [forallb] in Hw. apply andb_true_iff in Hw as [Hc Hw].
    assert (Hstep : Glob.compile_chars (c :: w ++ s)
                    = Ere.Cat (Ere.Chr c) <$> Glob.compile_chars (w ++ s)).
    { destruct c as [[] [] [] [] [] [] [] []]; cbv in Hc; try discriminate Hc;
        reflexivity. }
    cbn [app]. rewrite Hstep, IH by exact Hw.
    now destruct (Glob.compile_chars s).
Qed.

Lemma matches_literal w r s :
  Ere.matches (Glob.literal w r) s <-> exists t, s = w ++ t /\ Ere.matches r t.
Proof.
  revert s. induction w as [|c w IH]; intros s; cbn [Glob.literal fold_right].
  - split; [eauto | now intros (t & -> & H)].
  - split.
    + intros H. apply EreFacts.matches_cat_inv in H as (s1 & s2 & -> & H1 & H2).
      apply EreFacts.matches_chr_inv in H1 as ->.
      apply IH in H2 as (t & -> & H2). eauto.
    + intros (t & -> & H). change ((c :: w) ++ t) with ([c] ++ w ++ t).
      constructor; [constructor | apply IH; eauto].
Qed.

Lemma plain_no_special s :
  Glob.plain s = true -> forallb (fun c => negb (Glob.special c)) (chars s) = true.
Proof.
  unfold Glob.plain. generalize (chars s) as l.
  induction l as [|c l IH]; cbn [forallb]; [auto|].
  rewrite !andb_true_iff. intros [[-> _] H]. auto.
Qed.

(** [find -name "<name>.*"] selects the names that start with [<name>.]. *)
Lemma favicon_pattern_selects name :
  Glob.plain name = true ->
  exists r, Glob.compile (name +:+ ".*") = Some r
            /\ forall n, Ere.matchb r (chars n) = true
                         <-> startswith n (name +:+ ".") = true.
Proof.
  intros Hp.
  exists (Glob.literal (chars name)
            (Ere.Cat (Ere.Chr ".") (Ere.Cat (Ere.Star Ere.Any) Ere.Eps))).
  split.
  - unfold Glob.compile. rewrite chars_append.
    now rewrite compile_chars_plain by now apply plain_no_special.
  - intros n. rewrite EreFacts.matchb_matches, matches_literal, startswith_spec.
    split.
    + intros (t & Hn & Ht).
      apply EreFacts.matches_cat_inv in Ht as (s1 & s2 & -> & H1 & _).
      apply EreFacts.matches_chr_inv in H1 as ->.
      exists (string_of_list_ascii s2). apply chars_inj.
      rewrite Hn, !chars_append. unfold chars.
      rewrite list_ascii_of_string_of_list_ascii. now rewrite <- app_assoc.
    + intros (t & ->). exists ("."%char :: chars t). split.
      * now rewrite append_assoc, !chars_append.
      * replace ("."%char :: chars t) with (["."%char] ++ (chars t ++ []))
          by now rewrite app_nil_r.
        constructor; [constructor|].
        constructor; [apply EreFacts.matches_star_any | constructor].
Qed.

(** *** The favicon, end to end *)

Lemma length_append a b :
  String.length (a +:+ b) = String.length a + String.length b.
Proof.
  induction a as [|c a IH]; [reflexivity|].
  rewrite append_cons. cbn [String.length]. now rewrite IH.
Qed.

Lemma startswith_cancel p s t : startswith (p +:+ s) (p +:+ t) = startswith s t.
Proof.
  unfold startswith. induction p as [|c p IH]; [reflexivity|].
  rewrite !append_cons. cbn [String.prefix].
  destruct (ascii_dec c c); [exact IH | congruence].
Qed.

Lemma suffix_inj a s b t :
  a +:+ s = b +:+ t -> String.length s = String.length t -> s = t.
Proof.
  intros H Hlen. apply chars_inj. apply (f_equal chars) in H.
  rewrite !chars_append in H. apply app_inj_2 in H; [tauto|].
  revert Hlen. clear. revert t.
  induction s as [|c s IH]; intros [|d t]; cbn; try discriminate; auto.
Qed.

Lemma legal_suffix f s :
  Glob.plain f = true -> legal_name s = true -> 3 <= String.length s ->
  legal_name (f +:+ s) = true.
Proof.
  unfold legal_name, Glob.plain. rewrite !andb_true_iff, !bool_decide_eq_true.
  intros Hf [_ Hs] Hlen.
  assert (Hl : 3 <= String.length (f +:+ s)) by (rewrite length_append; lia).
  repeat split; try (intros E; rewrite E in Hl; cbn in Hl; lia).
  rewrite chars_append, forallb_app, Hs, andb_true_r.
  revert Hf. generalize (chars f) as l.
  induction l as [|c l IH]; cbn [forallb]; [auto|].
  rewrite !andb_true_iff, negb_true_iff. intros [[_ Hc] H].
  destruct (ascii_dec c "/"); [discriminate | auto].
Qed.

Lemma plain_append f s :
  Glob.plain f = true -> Glob.plain s = true -> Glob.plain (f +:+ s) = true.
Proof.
  unfold Glob.plain. rewrite chars_append, forallb_app. now intros -> ->.
Qed.

Lemma favicon_steps_eq (exec : programs) (a : favicon_args) (name : string)
    (w : world) :
  fav_clean_up a = true -> truthy (fav_move_to a) = false ->
  favicon_steps exec a name w =
  (Ret tt,
   World (cwd w)
         (find_delete false (Glob.compile (name +:+ ".*")) (here w)
            (exec (convert_argv name (fav_resolution a)) (getcwd w) (files w)).1).1
         ((procs w ++ [convert_argv name (fav_resolution a)])
          ++ [find_name_argv (name +:+ ".*")])
         (dirs w)).
Proof.
  intros Hc Hm. unfold favicon_steps. rewrite Hc, Hm.
  unfold bind, popen_wait, run. rewrite classify_convert, classify_find_name.
  destruct (exec _ _ _) as [fs4 st]. cbn [fst snd files cwd procs].
  unfold here, getcwd. cbn [cwd].
  now destruct (find_delete _ _ _ _).
Qed.

Lemma image_kept_by_cleanup name stem x :
  In x ["aux"; "log"; "pdf"] -> name +:+ ".png" <> stem +:+ "." +:+ x.
Proof.
  intros Hx E. apply suffix_inj in E.
  - cbn in Hx. destruct Hx as [<- | [<- | [<- | []]]]; discriminate.
  - cbn in Hx. destruct Hx as [<- | [<- | [<- | []]]]; reflexivity.
Qed.

(** C6, as amended: a favicon run at resolution 32 with cleanup enabled
    and no [move_to], for a plainly written base name, in a working
    directory that holds no file of the derived base name beforehand, and
    with tools that do their part (the engine leaves the image, [convert]
    writes the icon), ends without error and leaves in the working
    directory exactly one file whose name starts with the derived base
    name: [<base>_favicon_32.ico]. *)
Theorem favicon_only_icon (B : build_tex_file) (G : nat) (exec : programs)
    (a : favicon_args) (nodes : list node) (background concept text : color)
    (w : world) :
  fav_node_info a = Some nodes -> length nodes = 7 ->
  fav_background_color a = Some background ->
  fav_concept_color a = Some concept -> fav_text_color a = Some text ->
  fav_resolution a = 32 -> fav_clean_up a = true ->
  truthy (fav_move_to a) = false ->
  Glob.plain (fav_fname a) = true ->
  (forall n, startswith n (fav_fname a +:+ "_favicon") = true ->
             files w !! (n :: here w) = None) ->
  engine_makes_image exec a w -> convert_makes_icon exec a w ->
  let r := create_favicon B G exec a w in
  r.1 = Ret tt
  /\ forall n, legal_name n = true ->
               startswith n (fav_fname a +:+ "_favicon") = true ->
               (is_Some (files r.2 !! (n :: here w))
                <-> n = fav_fname a +:+ "_favicon_32.ico").
Proof.
  intros Hn Hlen Hb Hc Ht Hres Hclean Hmove Hplain Hfresh Hengine Hconvert r.
  set (name := fav_fname a +:+ "_favicon") in *.
  set (a' := favicon_logo_args a).
  set (doc := tex_document B G a' nodes background concept text).
  assert (Hname : Glob.plain name = true) by (now apply plain_append).
  assert (Hicon : fav_fname a +:+ "_favicon_32.ico" = name +:+ "_32.ico")
    by (unfold name; now rewrite append_assoc).
  assert (Htex : resolve w (name +:+ ".tex") = (name +:+ ".tex") :: here w).
  { apply resolve_name. unfold name. rewrite append_assoc.
    apply legal_suffix; [exact Hplain | reflexivity | vm_compute; lia]. }
  (* the inner call *)
  assert (Hlogo : create_logo B G exec a' w = (Ret tt, products exec a' doc w)).
  { rewrite (create_logo_checked B G exec a' nodes background concept text w)
      by assumption.
    unfold relocate. change (move_to a') with (fav_move_to a). now rewrite Hmove. }
  assert (Hr : r = favicon_steps exec a name (products exec a' doc w)).
  { subst r. unfold create_favicon, bind. fold a'. now rewrite Hlogo. }
  rewrite Hr, favicon_steps_eq by assumption. cbn [fst snd files].
  split; [reflexivity|].
  rewrite products_here, Hres.
  unfold getcwd at 1. rewrite products_cwd. fold (getcwd w).
  (* the files, step by step *)
  set (fs1 := <[(name +:+ ".tex") :: here w := doc]> (files w)).
  set (fs2 := (exec (engine_argv a') (getcwd w) fs1).1).
  assert (Hfs3 : files (products exec a' doc w) =
                 (find_delete true (Ere.compile (cleanup_pattern ["aux"; "log"; "pdf"]))
                              (here w) fs2).1).
  { rewrite products_eq, cleanup_eq, render_eq.
    cbn [snd write_file files cwd clean_up a' favicon_logo_args].
    fold (fname a'). change (fname a') with name. now rewrite Htex. }
  rewrite Hfs3. clear Hfs3.
  rewrite compile_cleanup_pattern by (repeat constructor).
  set (fs3 := (find_delete true _ (here w) fs2).1).
  set (fs4 := (exec (convert_argv name 32) (getcwd w) fs3).1).
  destruct (Hengine fs1) as [Hpng2 Hnew2].
  { unfold fs1. change (fname (favicon_logo_args a)) with name.
    rewrite lookup_insert_eq. eauto. }
  change (fname (favicon_logo_args a)) with name in Hpng2, Hnew2.
  fold a' fs2 in Hpng2, Hnew2.
  assert (Hfs3 : forall k : location,
            fs3 !! k = if selected (here w) true
                            (Ere.Cat (Ere.Star Ere.Any)
                               (Ere.Cat (Ere.Chr ".")
                                  (Ere.words (chars "aux") (map chars ["log"; "pdf"]))))
                            k
                       then None else fs2 !! k)
    by (intros k; apply find_delete_lookup).
  assert (Hpng3 : is_Some (fs3 !! ((name +:+ ".png") :: here w))).
  { rewrite Hfs3. destruct (selected _ _ _ _) eqn:Hs; [|exact Hpng2].
    unfold selected in Hs. apply andb_true_iff in Hs as [_ Hs].
    apply cleanup_pattern_selects in Hs as (stem & x & Hx & E);
      [|repeat constructor].
    now apply image_kept_by_cleanup in E. }
  unfold convert_makes_icon in Hconvert. rewrite Hres in Hconvert.
  change (fname (favicon_logo_args a)) with name in Hconvert.
  destruct (Hconvert fs3 Hpng3) as [Hico4 Hnew4]. fold fs4 in Hico4, Hnew4.
  change (name +:+ "_" +:+ pretty 32 +:+ ".ico") with (name +:+ "_32.ico")
    in Hico4, Hnew4.
  destruct (favicon_pattern_selects name Hname) as (g & -> & Hg).
  intros n Hlegal Hpre. rewrite find_delete_lookup. unfold selected.
  rewrite bool_decide_eq_true_2 by reflexivity. rewrite Hlegal. cbn [andb].
  rewrite Hicon. split.
  - destruct (Ere.matchb g (chars n)) eqn:Hm; [now intros [? ?]|].
    intros Hin. destruct (Hnew4 n Hpre Hin) as [H3 | ->]; [|reflexivity].
    rewrite Hfs3 in H3. destruct (selected _ _ _ _); [now destruct H3|].
    destruct (Hnew2 n Hpre H3) as [H1 | Hdot].
    + unfold fs1 in H1.
      destruct (decide (n = name +:+ ".tex")) as [-> | Hne].
      * apply not_true_iff_false in Hm. destruct Hm. apply Hg.
        rewrite startswith_cancel. reflexivity.
      * rewrite lookup_insert_ne in H1 by congruence.
        rewrite Hfresh in H1 by exact Hpre. now destruct H1.
    + apply Hg in Hdot. congruence.
  - intros ->. destruct (Ere.matchb g (chars (name +:+ "_32.ico"))) eqn:Hm;
      [|exact Hico4].
    apply Hg in Hm. rewrite startswith_cancel in Hm. discriminate.
Qed.

Lemma sample_engine_makes_image :
  engine_makes_image Sample.tools (Sample.favicon_call None (Some "")) Sample.dir1.
Proof.
  unfold engine_makes_image. cbv zeta. intros fs [doc Hdoc].
  change (here Sample.dir1) with ["w"] in *.
  change (fname (favicon_logo_args _)) with "logo_favicon" in *.
  change ("logo_favicon" +:+ ".tex") with "logo_favicon.tex" in Hdoc.
  assert (Hrun : (Sample.tools
                    (engine_argv (favicon_logo_args (Sample.favicon_call None (Some ""))))
                    (getcwd Sample.dir1) fs).1
                 = <[["logo_favicon.png"; "w"] := "png"]>
                     (<[["logo_favicon.pdf"; "w"] := "pdf"]>
                        (<[["logo_favicon.log"; "w"] := "log"]>
                           (<[["logo_favicon.aux"; "w"] := "aux"]> fs)))).
  { unfold Sample.tools.
    change (walk [] (getcwd Sample.dir1)) with ["w"].
    cbn [engine_argv].
    change (fname (favicon_logo_args _) +:+ ".tex") with "logo_favicon.tex".
    change (Sample.tex_stem "logo_favicon.tex") with (Some "logo_favicon").
    rewrite Hdoc. reflexivity. }
  cbv zeta. rewrite Hrun. split.
  - change ("logo_favicon" +:+ ".png") with "logo_favicon.png".
    rewrite lookup_insert_eq. eauto.
  - intros n Hpre Hin.
    destruct (decide (n = "logo_favicon.png")) as [-> | H1]; [now right|].
    destruct (decide (n = "logo_favicon.pdf")) as [-> | H2]; [now right|].
    destruct (decide (n = "logo_favicon.log")) as [-> | H3]; [now right|].
    destruct (decide (n = "logo_favicon.aux")) as [-> | H4]; [now right|].
    left. now rewrite !lookup_insert_ne in Hin by congruence.
Qed.

Lemma sample_convert_makes_icon :
  convert_makes_icon Sample.tools (Sample.favicon_call None (Some "")) Sample.dir1.
Proof.
  unfold convert_makes_icon. cbv zeta. intros fs [png Hpng].
  change (here Sample.dir1) with ["w"] in *.
  change (fname (favicon_logo_args _)) with "logo_favicon" in *.
  change ("logo_favicon" +:+ ".png") with "logo_favicon.png" in Hpng.
  assert (Hrun : (Sample.tools
                    (convert_argv "logo_favicon"
                       (fav_resolution (Sample.favicon_call None (Some ""))))
                    (getcwd Sample.dir1) fs).1
                 = <[["logo_favicon_32.ico"; "w"] := "ico"]> fs).
  { unfold Sample.tools.
    change (walk [] (getcwd Sample.dir1)) with ["w"].
    cbn [convert_argv].
    change ("logo_favicon" +:+ ".png") with "logo_favicon.png".
    rewrite Hpng. reflexivity. }
  cbv zeta. rewrite Hrun. split.
  - change (_ +:+ "_" +:+ _ +:+ ".ico") with "logo_favicon_32.ico".
    rewrite lookup_insert_eq. eauto.
  - intros n Hpre Hin.
    change (_ +:+ "_" +:+ _ +:+ ".ico") with "logo_favicon_32.ico".
    destruct (decide (n = "logo_favicon_32.ico")) as [-> | H1]; [now right|].
    left. now rewrite lookup_insert_ne in Hin by congruence.
Qed.

Lemma favicon_only_icon_witness :
  is_Some (files (create_favicon Sample.builder 3 Sample.tools
                    (Sample.favicon_call None (Some "")) Sample.dir1).2
           !! ["logo_favicon_32.ico"; "w"]).
Proof.
  refine (proj2 (proj2 (favicon_only_icon Sample.builder 3 Sample.tools
      (Sample.favicon_call None (Some "")) (Sample.rows "")
      Sample.green Sample.green Sample.green Sample.dir1
      eq_refl eq_refl eq_refl eq_refl eq_refl eq_refl eq_refl eq_refl eq_refl
      _ sample_engine_makes_image sample_convert_makes_icon)
      "logo_favicon_32.ico" eq_refl eq_refl) eq_refl).
  intros n Hn. change (here Sample.dir1) with ["w"]. cbn [files Sample.dir1].
  apply lookup_singleton_None. intros [= <-]. discriminate Hn.
Defined.

(** C6, as stated, fails: in a directory that holds the icon of an earlier
    run at another resolution, the run at resolution 32 with cleanup
    enabled leaves two files of the derived base name, the new icon and
    the earlier one. *)
Lemma earlier_icon_remains :
  let a := Sample.favicon_call None (Some "") in
  let w' := (create_favicon Sample.builder 3 Sample.tools a Sample.dir0).2 in
  fav_resolution a = 32 /\ fav_clean_up a = true
  /\ files w' !! ("logo_favicon_32.ico" :: here Sample.dir0) = Some "ico"
  /\ startswith "logo_favicon_16.ico" "logo_favicon" = true
  /\ files w' !! ("logo_favicon_16.ico" :: here Sample.dir0) = Some "icon16".
Proof. vm_compute. auto 6. Qed.

(** *** The favicon with a destination *)

Lemma favicon_steps_procs (exec : programs) (a : favicon_args) (name : string)
    (w : world) :
  procs (favicon_steps exec a name w).2 =
  procs w ++ convert_argv name (fav_resolution a) ::
    (if fav_clean_up a then [find_name_argv (name +:+ ".*")] else []).
Proof.
  unfold favicon_steps, bind at 1, popen_wait at 1.
  destruct (run exec (convert_argv name (fav_resolution a)) w) as [fs4 st].
  set (w4 := World (cwd w) fs4 (procs w ++ [convert_argv name (fav_resolution a)])
                   (dirs w)).
  assert (Hmove : forall w5 : world,
            procs ((if truthy (fav_move_to a)
                    then move_products name (default "" (fav_move_to a))
                    else ret tt) w5).2 = procs w5).
  { intros w5. destruct (truthy (fav_move_to a)); [|reflexivity].
    unfold move_products, bind, listdir.
    apply (for_each_rename_frame
             (fun f => getcwd w5 +:+ "/" +:+ default "" (fav_move_to a) +:+ f)). }
  destruct (fav_clean_up a).
  - unfold bind, popen_wait.
    destruct (run exec (find_name_argv (name +:+ ".*")) w4) as [fs5 st5].
    cbn [ret]. rewrite Hmove. cbn [procs w4]. now rewrite <- app_assoc.
  - unfold bind. cbn [ret]. rewrite Hmove. reflexivity.
Qed.

(** C10, as amended: when [create_favicon] is given a [move_to] that ends
    in a slash and names an existing directory other than the working
    directory, reached through existing directories, and neither the
    working directory nor that directory holds a directory whose name
    starts with the derived base name, the destination is passed on to
    [create_logo], whose move step runs before the resize and raises
    nothing: every file of the derived base name left by the cleanup is
    then in the destination and no longer in the working directory.  The
    resize that follows is started on [<derived>.png], a path of the
    working directory, where no such file is. *)
Theorem favicon_moves_before_resize (B : build_tex_file) (G : nat)
    (exec : programs) (a : favicon_args) (nodes : list node)
    (background concept text : color) (w : world) (d : string) :
  fav_node_info a = Some nodes -> length nodes = 7 ->
  fav_background_color a = Some background ->
  fav_concept_color a = Some concept -> fav_text_color a = Some text ->
  fav_move_to a = Some (d +:+ "/") -> walk (here w) d <> here w ->
  moves_freely (fav_fname a +:+ "_favicon") d w = true ->
  legal_name (fav_fname a +:+ "_favicon.png") = true ->
  let name := fav_fname a +:+ "_favicon" in
  let a' := favicon_logo_args a in
  let w1 := products exec a' (tex_document B G a' nodes background concept text) w in
  let r1 := create_logo B G exec a' w in
  move_to a' = fav_move_to a
  /\ r1.1 = Ret tt
  /\ (forall n, legal_name n = true -> startswith n name = true ->
                is_Some (files w1 !! (n :: here w)) ->
                files r1.2 !! (n :: walk (here w) d) = files w1 !! (n :: here w)
                /\ files r1.2 !! (n :: here w) = None)
  /\ create_favicon B G exec a w = favicon_steps exec a name r1.2
  /\ (exists later,
        procs (create_favicon B G exec a w).2 =
        procs r1.2 ++ convert_argv name (fav_resolution a) :: later)
  /\ nth 1 (convert_argv name (fav_resolution a)) "" = name +:+ ".png"
  /\ files r1.2 !! resolve r1.2 (name +:+ ".png") = None.
Proof.
  intros Hn Hlen Hb Hc Ht Hd Hne Hclear Hlegal name a' w1 r1.
  apply moves_freely_clear in Hclear.
  assert (Hr1 : r1 = relocate a' w1)
    by (now apply create_logo_checked).
  assert (Hclear1 : clear_to_move (fname a') (walk (here w1) d) w1 = true).
  { unfold w1. now rewrite products_here, clear_to_move_products. }
  destruct (relocate_dir_lookup a' d w1 Hd Hclear1) as (Hret & Hto & Hfrom & _).
  assert (Hcwd : here r1.2 = here w).
  { rewrite Hr1, (relocate_dir a' d w1 Hd Hclear1). unfold here, getcwd.
    cbn [snd cwd]. unfold w1. now rewrite products_cwd. }
  unfold w1 in Hret, Hto, Hfrom. rewrite products_here in Hto, Hfrom.
  fold w1 in Hret, Hto, Hfrom. rewrite <- Hr1 in Hret, Hto, Hfrom.
  assert (Hfav : create_favicon B G exec a w = favicon_steps exec a name r1.2).
  { unfold create_favicon, bind. fold a' r1.
    destruct r1 as [o w2]. cbn [fst snd] in *. now rewrite Hret. }
  split; [reflexivity|]. split; [exact Hret|]. split; [|split; [exact Hfav|]].
  - intros n Hl Hp Hin. split; [now apply Hto | now apply Hfrom].
  - split; [|split].
    + rewrite Hfav, favicon_steps_procs. eauto.
    + reflexivity.
    + assert (Hpng : name +:+ ".png" = fav_fname a +:+ "_favicon.png")
        by (unfold name; now rewrite append_assoc).
      rewrite resolve_name, Hcwd by (now rewrite Hpng).
      apply Hfrom; [exact Hne | now rewrite Hpng |].
      change (fname a') with name. apply startswith_append.
Qed.

Lemma favicon_moves_before_resize_witness :
  files (create_logo Sample.builder 3 Sample.tools
           (favicon_logo_args (Sample.favicon_call (Some "out/") (Some "")))
           Sample.dir1).2 !! ["logo_favicon.png"; "w"] = None.
Proof.
  refine (proj2 (proj2 (proj2 (proj2 (proj2 (proj2
    (favicon_moves_before_resize Sample.builder 3 Sample.tools
       (Sample.favicon_call (Some "out/") (Some "")) (Sample.rows "")
       Sample.green Sample.green Sample.green Sample.dir1 "out"
       eq_refl eq_refl eq_refl eq_refl eq_refl eq_refl _ _ eq_refl))))))).
  - vm_compute. discriminate.
  - vm_compute. reflexivity.
Defined.

(** C10, as stated, fails: with [move_to = "./"], which is truthy, the
    files are renamed onto themselves, and the image the resize looks for
    is still in the working directory. *)
Lemma image_stays_in_place :
  let a := Sample.favicon_call (Some "./") (Some "") in
  let r1 := create_logo Sample.builder 3 Sample.tools (favicon_logo_args a)
              Sample.dir1 in
  truthy (fav_move_to a) = true
  /\ move_to (favicon_logo_args a) = Some "./"
  /\ r1.1 = Ret tt
  /\ files r1.2 !! resolve r1.2 "logo_favicon.png" = Some "png"
  /\ files (create_favicon Sample.builder 3 Sample.tools a Sample.dir1).2
       !! resolve r1.2 "logo_favicon_32.ico" = Some "ico".
Proof. vm_compute. auto 6. Qed.

End LogoFacts.

(** ** Further properties of the two functions *)

Module MoreFacts.
Import Text TextFacts Os OsFacts Logo LogoFacts.

(** *** Calls that are turned down *)

(** X1: [create_logo] called without rows, or with seven rows but without
    one of the three colours (the defaults), raises [TypeError] before
    anything is written or started: the world is as it was. *)
Theorem missing_argument_type_error (B : build_tex_file) (G : nat)
    (exec : programs) (a : logo_args) (w : world) :
  (node_info a = None \/
   (exists nodes, node_info a = Some nodes /\ length nodes = 7)
   /\ (background_color a = None \/ concept_color a = None
       \/ text_color a = None)) ->
  create_logo B G exec a w = (Raise TypeError, w).
Proof.
  unfold create_logo. intros [-> | [(nodes & -> & ->) Hc]]; [reflexivity|].
  cbn [Nat.eqb CHILD_NODES negb].
  destruct Hc as [-> | [-> | ->]]; [reflexivity | |].
  - now destruct (background_color a).
  - now destruct (background_color a), (concept_color a).
Qed.

Lemma missing_argument_type_error_witness :
  create_logo Sample.builder 3 Sample.tools
    {| fname := "logo"; node_info := Some (Sample.rows "x");
       color_format := None; background_color := None;
       concept_color := None; text_color := None; move_to := None;
       concept_text := Some "PySAL"; concept_font_style := "bfseries";
       concept_font_size := "large"; font := "M+ 1mn"; engine := "lualatex";
       convert_tikz := ",convert={outfile=\jobname.png}";
       clean_up := ["aux"; "log"; "pdf"] |} Sample.dir0
  = (Raise TypeError, Sample.dir0).
Proof.
  apply missing_argument_type_error. right. split.
  - exists (Sample.rows "x"). split; reflexivity.
  - left. reflexivity.
Defined.

(** *** When the move goes through *)

Lemma relocate_goes_through (a : logo_args) (w : world) :
  move_goes_through (fname a) (move_to a) w ->
  (relocate a w).1 = Ret tt
  /\ cwd (relocate a w).2 = cwd w /\ dirs (relocate a w).2 = dirs w.
Proof.
  intros [Hf | (d & Hd & Hclear%moves_freely_clear)].
  - unfold relocate. now rewrite Hf.
  - now rewrite (relocate_dir a d w Hd Hclear).
Qed.

Lemma favicon_steps_goes_through (exec : programs) (a : favicon_args)
    (name : string) (w : world) :
  move_goes_through name (fav_move_to a) w ->
  (favicon_steps exec a name w).1 = Ret tt.
Proof.
  intros Hgo.
  unfold favicon_steps, bind at 1, popen_wait at 1.
  destruct (run exec _ w) as [fs4 st].
  assert (Hmove : forall w5 : world, cwd w5 = cwd w -> dirs w5 = dirs w ->
            ((if truthy (fav_move_to a)
              then move_products name (default "" (fav_move_to a))
              else ret tt) w5).1 = Ret tt).
  { intros w5 Hc5 Hd5. destruct Hgo as [-> | (d & -> & Hclear)]; [reflexivity|].
    rewrite truthy_dir. cbn [default]. unfold id.
    rewrite move_products_dir; [reflexivity|].
    apply moves_freely_clear. now rewrite (moves_freely_same _ _ w w5 Hc5 Hd5). }
  destruct (fav_clean_up a).
  - unfold bind, popen_wait. destruct (run exec _ _) as [fs5 st5].
    cbn [ret]. now apply Hmove.
  - unfold bind. cbn [ret]. now apply Hmove.
Qed.

(** X2: a call that passes the checks ends without an exception, whatever
    the programs do and whatever [clean_up] is, when the move step meets
    no obstacle: [move_to] is falsy, or it ends in a slash and names an
    existing directory, reached through existing directories, and no
    directory whose name starts with the base name is in the working
    directory or in the destination.  Every file the move step renames is
    then still in place when its turn comes.  The same holds for
    [create_favicon], with the derived base name.  ([open] and [Popen]
    are taken to succeed throughout.) *)
Theorem checked_call_completes (B : build_tex_file) (G : nat) (exec : programs)
    (a : logo_args) (f : favicon_args) (nodes : list node) (w : world) :
  (checked a nodes -> move_goes_through (fname a) (move_to a) w ->
   (create_logo B G exec a w).1 = Ret tt)
  /\ (checked (favicon_logo_args f) nodes ->
      move_goes_through (fav_fname f +:+ "_favicon") (fav_move_to f) w ->
      (create_favicon B G exec f w).1 = Ret tt).
Proof.
  assert (Hlogo : forall a' : logo_args, checked a' nodes ->
            move_goes_through (fname a') (move_to a') w ->
            let r := create_logo B G exec a' w in
            r.1 = Ret tt /\ cwd r.2 = cwd w /\ dirs r.2 = dirs w).
  { intros a' (Hn & Hlen & [b Hb] & [c Hc] & [t Ht]) Hgo.
    cbv zeta.
    rewrite (create_logo_checked B G exec a' nodes b c t w) by assumption.
    set (w1 := products exec a' (tex_document B G a' nodes b c t) w).
    assert (Hc1 : cwd w1 = cwd w) by apply products_cwd.
    assert (Hd1 : dirs w1 = dirs w) by apply products_dirs.
    rewrite <- Hc1, <- Hd1. apply relocate_goes_through.
    destruct Hgo as [Hf | (d & Hd & Hclear)]; [now left|].
    right. exists d. split; [exact Hd|].
    now rewrite (moves_freely_same _ _ w w1 Hc1 Hd1). }
  split; [intros H Hgo; now apply Hlogo|].
  intros H Hgo. unfold create_favicon, bind.
  destruct (Hlogo _ H Hgo) as (Hret & Hc2 & Hd2).
  destruct (create_logo B G exec (favicon_logo_args f) w) as [[[]|e] w2];
    [|discriminate].
  cbn [snd] in Hc2, Hd2.
  apply favicon_steps_goes_through.
  destruct Hgo as [Hf | (d & Hd & Hclear)]; [now left|].
  right. exists d. split; [exact Hd|].
  change (fname (favicon_logo_args f)) with (fav_fname f +:+ "_favicon").
  now rewrite (moves_freely_same _ _ w w2 Hc2 Hd2).
Qed.

Lemma checked_call_completes_witness :
  (create_logo Sample.builder 3 Sample.tools
     (Sample.logo_call (Some "out/") ["aux"] (Sample.rows "x")) Sample.dir0).1
  = Ret tt.
Proof.
  refine (proj1 (checked_call_completes Sample.builder 3 Sample.tools
            (Sample.logo_call (Some "out/") ["aux"] (Sample.rows "x"))
            (Sample.favicon_call None None) (Sample.rows "x") Sample.dir0) _ _).
  - repeat split; eauto.
  - right. exists "out". split; reflexivity.
Defined.


(** *** What the cleanup can and cannot do *)

(** X3: whatever the list of extensions (plainly written or not), the
    cleanup only deletes: a file found afterwards was there before with
    the same text; it reaches direct entries of the working directory
    only; it does not change the working directory; and with an empty
    list it does nothing at all, not even start [find]. *)
Theorem cleanup_only_deletes (exec : programs) (a : logo_args) (w : world) :
  let w' := (cleanup exec a w).2 in
  (forall (k : location) text,
     files w' !! k = Some text -> files w !! k = Some text)
  /\ (forall k : location,
        (forall n, k <> n :: here w) -> files w' !! k = files w !! k)
  /\ cwd w' = cwd w
  /\ (clean_up a = [] -> w' = w).
Proof.
  cbv zeta. rewrite cleanup_eq. cbn [snd].
  destruct (clean_up a) as [|e es]; [now auto|].
  cbn [files cwd].
  destruct (Ere.compile (cleanup_pattern (e :: es))) as [r|];
    [|now repeat split; auto].
  repeat split; try discriminate.
  - intros k text. rewrite find_delete_lookup.
    now destruct (selected _ _ _ _).
  - intros k Hk. rewrite find_delete_lookup.
    destruct (selected (here w) true r k) eqn:Hs; [|reflexivity].
    destruct k as [|n d]; [discriminate|]. unfold selected in Hs.
    apply andb_true_iff in Hs as [[Hd _]%andb_true_iff _].
    apply bool_decide_eq_true in Hd as ->. now destruct (Hk n).
Qed.

Lemma cleanup_only_deletes_witness :
  (cleanup Sample.tools (Sample.logo_call None [] (Sample.rows "x"))
           Sample.dir0).2 = Sample.dir0.
Proof.
  exact (proj2 (proj2 (proj2 (cleanup_only_deletes Sample.tools
           (Sample.logo_call None [] (Sample.rows "x")) Sample.dir0))) eq_refl).
Defined.

Lemma cleanup_files_lookup (exec : programs) (a : logo_args) (w : world)
    (e : string) (es : list string) (k : location) :
  clean_up a = e :: es -> Forall (fun x => plain_ext x = true) (e :: es) ->
  files (cleanup exec a w).2 !! k =
  if selected (here w) true
       (Ere.Cat (Ere.Star Ere.Any)
          (Ere.Cat (Ere.Chr ".") (Ere.words (chars e) (map chars es)))) k
  then None else files w !! k.
Proof.
  intros He Hall. rewrite cleanup_eq, He.
  rewrite compile_cleanup_pattern by exact Hall.
  cbn [snd files]. apply find_delete_lookup.
Qed.

Lemma plain_ext_no_dot x : plain_ext x = true -> ~ In "."%char (chars x).
Proof.
  intros (_ & Hall & _)%plain_ext_spec Hin.
  rewrite forallb_forall in Hall. now specialize (Hall _ Hin).
Qed.

(** The part after the last dot of a name is determined by the name. *)
Lemma last_dot_unique (s s' x e : list ascii) :
  s ++ "."%char :: x = s' ++ "."%char :: e ->
  ~ In "."%char x -> ~ In "."%char e -> x = e.
Proof.
  revert s'. induction s as [|c s IH]; intros [|c' s'] H Hx He; cbn in H.
  - congruence.
  - injection H as _ H. destruct Hx. rewrite H. apply in_elt.
  - injection H as _ H. destruct He. rewrite <- H. apply in_elt.
  - injection H as _ H. eauto.
Qed.

(** X4: the cleanup keeps the files of the types that are not listed:
    with plainly written extensions, a file [stem.x] whose type [x]
    (plainly written too) is not in the list is left as it was.  So the
    [.tex] source survives the default list, and goes only when [tex] is
    added to it. *)
Theorem unlisted_types_kept (exec : programs) (a : logo_args) (w : world)
    (stem x : string) :
  Forall (fun e => plain_ext e = true) (clean_up a) ->
  plain_ext x = true -> ~ In x (clean_up a) ->
  files (cleanup exec a w).2 !! ((stem +:+ "." +:+ x) :: here w)
  = files w !! ((stem +:+ "." +:+ x) :: here w).
Proof.
  intros Hall Hx Hnot.
  destruct (clean_up a) as [|e es] eqn:He.
  { rewrite cleanup_eq, He. reflexivity. }
  rewrite (cleanup_files_lookup exec a w e es) by assumption.
  destruct (selected _ _ _ _) eqn:Hs; [|reflexivity].
  unfold selected in Hs. apply andb_true_iff in Hs as [_ Hm].
  apply cleanup_pattern_selects in Hm as (stem' & y & Hy & E); [|exact Hall].
  destruct Hnot. replace x with y; [exact Hy|].
  apply chars_inj. symmetry.
  apply (f_equal chars) in E. rewrite !chars_append in E.
  apply (last_dot_unique _ _ _ _ E); apply plain_ext_no_dot; auto.
  rewrite Forall_forall in Hall. apply Hall. now apply list_elem_of_In.
Qed.

Lemma unlisted_types_kept_witness :
  files (cleanup Sample.tools
           (Sample.logo_call None ["aux"; "log"; "pdf"] (Sample.rows "x"))
           (write_file "logo.tex" "text" Sample.dir0).2).2
    !! ["logo.tex"; "w"]
  = Some "text".
Proof.
  refine (eq_trans (unlisted_types_kept Sample.tools
            (Sample.logo_call None ["aux"; "log"; "pdf"] (Sample.rows "x"))
            (write_file "logo.tex" "text" Sample.dir0).2 "logo" "tex" _ _ _) _).
  - repeat constructor.
  - reflexivity.
  - cbn. intros [H | [H | [H | []]]]; discriminate.
  - vm_compute. reflexivity.
Defined.

(** X5: after a call that passes the checks, with a non-empty list of
    plainly written extensions and no [move_to], no file of a listed type
    is left in the working directory, whatever the programs wrote: the
    cleanup is the last step to touch the files. *)
Theorem no_listed_type_remains (B : build_tex_file) (G : nat) (exec : programs)
    (a : logo_args) (nodes : list node) (w : world) (stem e : string) :
  checked a nodes -> truthy (move_to a) = false ->
  Forall (fun x => plain_ext x = true) (clean_up a) ->
  In e (clean_up a) -> legal_name (stem +:+ "." +:+ e) = true ->
  files (create_logo B G exec a w).2 !! ((stem +:+ "." +:+ e) :: here w) = None.
Proof.
  intros (Hn & Hlen & [b Hb] & [c Hc] & [t Ht]) Hmove Hall He Hlegal.
  rewrite (create_logo_checked B G exec a nodes b c t w) by assumption.
  unfold relocate. rewrite Hmove. cbn [ret snd]. rewrite products_eq.
  destruct (clean_up a) as [|e0 es] eqn:Hexts; [now destruct He|].
  rewrite (cleanup_files_lookup exec a _ e0 es) by assumption.
  rewrite render_eq. cbn [snd write_file].
  change (here (World (cwd w) _ _ _)) with (here w).
  unfold selected. rewrite bool_decide_eq_true_2 by reflexivity.
  rewrite Hlegal. cbn [andb].
  destruct (Ere.matchb _ _) eqn:Hm; [reflexivity|].
  apply not_true_iff_false in Hm. destruct Hm.
  apply cleanup_pattern_selects; eauto.
Qed.

Lemma no_listed_type_remains_witness :
  files (create_logo Sample.builder 3 Sample.tools
           (Sample.logo_call None ["aux"; "tex"] (Sample.rows "x"))
           Sample.dir0).2 !! ["logo.tex"; "w"] = None.
Proof.
  refine (no_listed_type_remains Sample.builder 3 Sample.tools
            (Sample.logo_call None ["aux"; "tex"] (Sample.rows "x"))
            (Sample.rows "x") Sample.dir0 "logo" "tex" _ eq_refl _ _ eq_refl).
  - repeat split; eauto.
  - repeat constructor.
  - cbn. auto.
Defined.


(** *** The move step at its edges *)




Lemma no_movable_left (a : logo_args) (d : string) (w : world) :
  move_to a = Some (d +:+ "/") -> walk (here w) d <> here w ->
  clear_to_move (fname a) (walk (here w) d) w = true ->
  movable (fname a) (relocate a w).2 = [].
Proof.
  intros Hd Hne Hclear.
  destruct (relocate_dir_lookup a d w Hd Hclear) as (_ & _ & Hfrom & _).
  assert (Hhere : here (relocate a w).2 = here w)
    by (now rewrite (relocate_dir a d w Hd Hclear)).
  destruct (movable (fname a) (relocate a w).2) as [|n l] eqn:E; [reflexivity|].
  assert (Hn : n ∈ movable (fname a) (relocate a w).2) by (rewrite E; left).
  apply elem_of_movable in Hn as (Hl & Hp & Hin).
  rewrite Hhere, (Hfrom Hne n Hl Hp) in Hin. now destruct Hin.
Qed.

(** X7: moving twice is moving once: after the products are moved into
    another directory (a [move_to] ending in a slash that names an
    existing directory, reached through existing directories, with no
    directory of the base name in the working directory or in the
    destination), a second move step finds no file of the base name in
    the working directory and changes nothing. *)
Theorem relocate_twice (a : logo_args) (d : string) (w : world) :
  move_to a = Some (d +:+ "/") -> walk (here w) d <> here w ->
  moves_freely (fname a) d w = true ->
  relocate a (relocate a w).2 = (Ret tt, (relocate a w).2).
Proof.
  intros Hd Hne Hclear. apply moves_freely_clear in Hclear.
  assert (Hclear2 : clear_to_move (fname a)
                      (walk (here (relocate a w).2) d) (relocate a w).2 = true)
    by (now rewrite (relocate_dir a d w Hd Hclear)).
  rewrite (relocate_dir a d (relocate a w).2 Hd Hclear2).
  rewrite (no_movable_left a d w Hd Hne Hclear). cbn [fold_left].
  now destruct (relocate a w).2.
Qed.

Lemma relocate_twice_witness :
  let a := Sample.logo_call (Some "out/") [] (Sample.rows "x") in
  let w := (write_file "logo.png" "png" Sample.dir0).2 in
  relocate a (relocate a w).2 = (Ret tt, (relocate a w).2).
Proof.
  refine (relocate_twice (Sample.logo_call (Some "out/") [] (Sample.rows "x"))
            "out" (write_file "logo.png" "png" Sample.dir0).2 eq_refl _ eq_refl).
  vm_compute. discriminate.
Defined.


(** *** The favicon *)

(** X8: [create_favicon] called with a number of rows other than seven
    raises the [RuntimeError] of [create_logo], with the count in the
    message, and does nothing else: no conversion is started, no file is
    deleted or moved. *)
Theorem favicon_count_error (B : build_tex_file) (G : nat) (exec : programs)
    (a : favicon_args) (nodes : list node) (w : world) :
  fav_node_info a = Some nodes -> length nodes <> 7 ->
  create_favicon B G exec a w =
  (Raise (RuntimeError ("There must be 7 elements in the logo, "
                        +:+ pretty (length nodes) +:+ " were passed in.")), w).
Proof.
  intros Hn Hlen. unfold create_favicon, bind.
  now rewrite (create_logo_count B G exec (favicon_logo_args a) nodes w Hn Hlen).
Qed.

Lemma favicon_count_error_witness :
  create_favicon Sample.builder 3 Sample.tools
    {| fav_fname := "logo"; fav_node_info := Some [];
       fav_color_format := None; fav_background_color := Some Sample.green;
       fav_concept_color := Some Sample.green;
       fav_text_color := Some Sample.green; fav_move_to := None;
       fav_concept_text := Some ""; fav_resolution := 32;
       fav_clean_up := true |} Sample.dir0
  = (Raise (RuntimeError
              "There must be 7 elements in the logo, 0 were passed in."),
     Sample.dir0).
Proof.
  refine (favicon_count_error Sample.builder 3 Sample.tools
    {| fav_fname := "logo"; fav_node_info := Some [];
       fav_color_format := None; fav_background_color := Some Sample.green;
       fav_concept_color := Some Sample.green;
       fav_text_color := Some Sample.green; fav_move_to := None;
       fav_concept_text := Some ""; fav_resolution := 32;
       fav_clean_up := true |} [] Sample.dir0 eq_refl _).
  cbn. lia.
Defined.

(** X9: the processes of a favicon run that passes the checks, in order:
    the engine [lualatex] with [--shell-escape] on [<name>.tex] and the
    [find] that deletes the [aux], [log] and [pdf] files; then, when the
    inner [create_logo] ends without an exception, [convert] on
    [<name>.png] and, when [clean_up] is set, the [find] that deletes
    [<name>.*].  When the move step of the inner [create_logo] raises,
    neither [convert] nor the second [find] is started.  Nothing else is
    started. *)
Theorem favicon_processes (B : build_tex_file) (G : nat) (exec : programs)
    (a : favicon_args) (nodes : list node) (w : world) :
  checked (favicon_logo_args a) nodes ->
  let name := fav_fname a +:+ "_favicon" in
  procs (create_favicon B G exec a w).2 =
  procs w ++
  [["lualatex"; "--shell-escape"; name +:+ ".tex"];
   find_regex_argv ".*\.(aux|log|pdf)"]
  ++ match (create_logo B G exec (favicon_logo_args a) w).1 with
     | Ret _ =>
         convert_argv name (fav_resolution a)
         :: (if fav_clean_up a then [find_name_argv (name +:+ ".*")] else [])
     | Raise _ => []
     end.
Proof.
  intros Hchecked name.
  pose proof Hchecked as (Hn & Hlen & [b Hb] & [c Hc] & [t Ht]).
  assert (Hlogo : create_logo B G exec (favicon_logo_args a) w
                  = relocate (favicon_logo_args a)
                      (products exec (favicon_logo_args a)
                         (tex_document B G (favicon_logo_args a) nodes b c t) w))
    by (now apply create_logo_checked).
  unfold create_favicon, bind. rewrite Hlogo.
  destruct (relocate_frame (favicon_logo_args a)
              (products exec (favicon_logo_args a)
                 (tex_document B G (favicon_logo_args a) nodes b c t) w))
    as (Hprocs & _).
  destruct (relocate _ _) as [[[]|e] w1]; cbn [fst snd] in *.
  - rewrite favicon_steps_procs, Hprocs, products_procs.
    rewrite <- !app_assoc. reflexivity.
  - rewrite Hprocs, products_procs. reflexivity.
Qed.

Lemma favicon_processes_witness :
  procs (create_favicon Sample.builder 3 Sample.tools
           (Sample.favicon_call None (Some "")) Sample.dir1).2
  = [["lualatex"; "--shell-escape"; "logo_favicon.tex"];
     find_regex_argv ".*\.(aux|log|pdf)";
     convert_argv "logo_favicon" 32;
     find_name_argv "logo_favicon.*"].
Proof.
  refine (eq_trans
            (favicon_processes Sample.builder 3 Sample.tools
               (Sample.favicon_call None (Some "")) (Sample.rows "") Sample.dir1 _)
            _).
  - repeat split; eauto.
  - vm_compute. reflexivity.
Defined.

Lemma create_logo_status (B : build_tex_file) (G : nat) (exec : programs)
    (status : list string -> string -> gmap location string -> Z)
    (a : logo_args) (w : world) :
  create_logo B G (with_status exec status) a w = create_logo B G exec a w.
Proof.
  unfold create_logo.
  destruct (node_info a) as [nodes|]; [|reflexivity].
  destruct (negb _); [reflexivity|].
  destruct (background_color a), (concept_color a), (text_color a);
    try reflexivity.
  apply bind_ext; [reflexivity|]. intros _ w1.
  apply bind_ext; [now rewrite !render_eq|]. intros _ w2.
  apply bind_ext; [now rewrite !cleanup_eq|]. reflexivity.
Qed.

Lemma popen_wait_status {C : Type} (exec : programs)
    (status : list string -> string -> gmap location string -> Z)
    (argv : list string) (k k' : M C) (w : world) :
  (forall w', k w' = k' w') ->
  bind (popen_wait (with_status exec status) argv) (fun _ => k) w
  = bind (popen_wait exec argv) (fun _ => k') w.
Proof.
  intros Hk. unfold bind, popen_wait, run, with_status.
  destruct (classify argv).
  - destruct (find_delete _ _ _ _). apply Hk.
  - destruct (find_delete _ _ _ _). apply Hk.
  - cbn [fst]. destruct (exec argv (getcwd w) (files w)). apply Hk.
Qed.

(** X10: [create_favicon] does not look at exit statuses either: with the
    statuses of the engine and of [convert] replaced by any others (a
    failed conversion, say), the outcome and the final world are the
    same, and the cleanup and the move still run. *)
Theorem favicon_status_ignored (B : build_tex_file) (G : nat)
    (exec : programs)
    (status : list string -> string -> gmap location string -> Z)
    (a : favicon_args) (w : world) :
  create_favicon B G (with_status exec status) a w
  = create_favicon B G exec a w.
Proof.
  unfold create_favicon. apply bind_ext; [apply create_logo_status|].
  intros _ w1. unfold favicon_steps.
  apply popen_wait_status. intros w2.
  apply bind_ext; [|reflexivity].
  destruct (fav_clean_up a); [|reflexivity].
  apply popen_wait_status. reflexivity.
Qed.


Lemma startswith_dot_prefix (n name : string) :
  startswith n (name +:+ ".") = true -> startswith n name = true.
Proof.
  rewrite !startswith_spec. intros (t & ->). exists ("." +:+ t).
  apply append_assoc.
Qed.

(** X11: the cleanup of [create_favicon] (run with [clean_up] set and no
    [move_to], for a plainly written name) deletes, of what [convert]
    left, exactly the entries of the working directory whose name starts
    with [<name>.]; everything else is as [convert] left it, and in
    particular the icon [<name>_<r>.ico] of every resolution [r]. *)
Theorem favicon_cleanup_by_prefix (exec : programs) (a : favicon_args)
    (name : string) (w : world) :
  fav_clean_up a = true -> truthy (fav_move_to a) = false ->
  Glob.plain name = true ->
  let left_by_convert :=
    (exec (convert_argv name (fav_resolution a)) (getcwd w) (files w)).1 in
  let w' := (favicon_steps exec a name w).2 in
  (forall n, legal_name n = true -> startswith n (name +:+ ".") = true ->
             files w' !! (n :: here w) = None)
  /\ (forall k : location,
        (forall n, startswith n (name +:+ ".") = true -> k <> n :: here w) ->
        files w' !! k = left_by_convert !! k)
  /\ (forall r : nat,
        files w' !! ((name +:+ "_" +:+ pretty r +:+ ".ico") :: here w)
        = left_by_convert !! ((name +:+ "_" +:+ pretty r +:+ ".ico") :: here w)).
Proof.
  intros Hc Hm Hplain. cbv zeta. rewrite favicon_steps_eq by assumption.
  cbn [snd files].
  destruct (favicon_pattern_selects name Hplain) as (g & -> & Hg).
  assert (Hframe : forall k : location,
            (forall n, startswith n (name +:+ ".") = true -> k <> n :: here w) ->
            (find_delete false (Some g) (here w)
               (exec (convert_argv name (fav_resolution a)) (getcwd w) (files w)).1).1
              !! k
            = (exec (convert_argv name (fav_resolution a)) (getcwd w) (files w)).1
                !! k).
  { intros k Hk. rewrite find_delete_lookup.
    destruct (selected _ _ _ k) eqn:Hs; [|reflexivity].
    destruct k as [|n d]; [discriminate|]. unfold selected in Hs.
    apply andb_true_iff in Hs as [[Hd _]%andb_true_iff Hs].
    apply bool_decide_eq_true in Hd as ->. apply Hg in Hs.
    now destruct (Hk n Hs). }
  split; [|split].
  - intros n Hl Hp. rewrite find_delete_lookup. unfold selected.
    rewrite bool_decide_eq_true_2 by reflexivity. rewrite Hl. cbn [andb].
    apply Hg in Hp. now rewrite Hp.
  - exact Hframe.
  - intros r. apply Hframe. intros n Hn [= <-].
    rewrite startswith_cancel in Hn. discriminate.
Qed.

Lemma favicon_cleanup_by_prefix_witness :
  files (favicon_steps Sample.tools (Sample.favicon_call None (Some ""))
           "logo_favicon"
           (write_file "logo_favicon.png" "png" Sample.dir0).2).2
    !! ["logo_favicon.png"; "w"] = None.
Proof.
  refine (proj1 (favicon_cleanup_by_prefix Sample.tools
            (Sample.favicon_call None (Some "")) "logo_favicon"
            (write_file "logo_favicon.png" "png" Sample.dir0).2
            eq_refl eq_refl eq_refl) "logo_favicon.png" eq_refl eq_refl).
Defined.

(** X12: after a favicon run that passes the checks, with [clean_up] set,
    no [move_to] and a plainly written base name, no file named
    [<base>_favicon.<anything>] is left in the working directory,
    whatever the engine and [convert] wrote or failed to write. *)
Theorem favicon_leaves_no_intermediate (B : build_tex_file) (G : nat)
    (exec : programs) (a : favicon_args) (nodes : list node) (w : world)
    (n : string) :
  checked (favicon_logo_args a) nodes ->
  fav_clean_up a = true -> truthy (fav_move_to a) = false ->
  Glob.plain (fav_fname a) = true ->
  legal_name n = true -> startswith n (fav_fname a +:+ "_favicon.") = true ->
  files (create_favicon B G exec a w).2 !! (n :: here w) = None.
Proof.
  intros (Hn & Hlen & [b Hb] & [c Hc] & [t Ht]) Hclean Hmove Hplain Hl Hp.
  set (name := fav_fname a +:+ "_favicon").
  assert (Hname : Glob.plain name = true) by (now apply plain_append).
  assert (Hp' : startswith n (name +:+ ".") = true).
  { unfold name. now rewrite append_assoc. }
  set (doc := tex_document B G (favicon_logo_args a) nodes b c t).
  assert (Hlogo : create_logo B G exec (favicon_logo_args a) w
                  = (Ret tt, products exec (favicon_logo_args a) doc w)).
  { rewrite (create_logo_checked B G exec (favicon_logo_args a) nodes b c t w)
      by assumption.
    unfold relocate. change (move_to (favicon_logo_args a)) with (fav_move_to a).
    now rewrite Hmove. }
  unfold create_favicon, bind. rewrite Hlogo.
  change (fname (favicon_logo_args a)) with name.
  rewrite favicon_steps_eq by assumption. cbn [snd files].
  rewrite products_here.
  destruct (favicon_pattern_selects name Hname) as (g & -> & Hg).
  rewrite find_delete_lookup. unfold selected.
  rewrite bool_decide_eq_true_2 by reflexivity. rewrite Hl. cbn [andb].
  apply Hg in Hp'. now rewrite Hp'.
Qed.

Lemma favicon_leaves_no_intermediate_witness :
  files (create_favicon Sample.builder 3 Sample.tools
           (Sample.favicon_call None (Some "")) Sample.dir0).2
    !! ["logo_favicon.tex"; "w"] = None.
Proof.
  refine (favicon_leaves_no_intermediate Sample.builder 3 Sample.tools
            (Sample.favicon_call None (Some "")) (Sample.rows "") Sample.dir0
            "logo_favicon.tex" _ eq_refl eq_refl eq_refl eq_refl eq_refl).
  repeat split; eauto.
Defined.


Lemma find_name_nothing_to_delete (name : string) (w : world) :
  Glob.plain name = true -> movable name w = [] ->
  (find_delete false (Glob.compile (name +:+ ".*")) (here w) (files w)).1
  = files w.
Proof.
  intros Hplain Hnone.
  destruct (favicon_pattern_selects name Hplain) as (g & -> & Hg).
  apply map_eq. intros k. rewrite find_delete_lookup.
  destruct (selected (here w) false g k) eqn:Hs; [|reflexivity].
  destruct k as [|n d]; [discriminate|]. unfold selected in Hs.
  apply andb_true_iff in Hs as [[Hd Hl]%andb_true_iff Hs].
  apply bool_decide_eq_true in Hd as ->. apply Hg in Hs.
  destruct (files w !! (n :: here w)) as [c|] eqn:Hn; [|reflexivity].
  assert (Hin : n ∈ movable name w).
  { apply elem_of_movable. rewrite Hn.
    eauto using startswith_dot_prefix. }
  rewrite Hnone in Hin. now apply elem_of_nil in Hin.
Qed.

Lemma favicon_steps_nothing_to_do (exec : programs) (a : favicon_args)
    (name d : string) (w : world) :
  fav_move_to a = Some (d +:+ "/") -> Glob.plain name = true ->
  clear_to_move name (walk (here w) d) w = true ->
  movable name w = [] ->
  (exec (convert_argv name (fav_resolution a)) (getcwd w) (files w)).1 = files w ->
  files (favicon_steps exec a name w).2 = files w.
Proof.
  intros Hd Hplain Hclear Hnone Hconv.
  unfold favicon_steps. rewrite Hd, truthy_dir. cbn [default].
  unfold bind at 1, popen_wait at 1, run at 1. rewrite classify_convert.
  destruct (exec (convert_argv name (fav_resolution a)) (getcwd w) (files w))
    as [fs4 st] eqn:E.
  cbn [fst] in Hconv. subst fs4.
  set (w4 := World (cwd w) (files w)
                   (procs w ++ [convert_argv name (fav_resolution a)]) (dirs w)).
  assert (Hmov4 : forall p, movable name (World (cwd w) (files w) p (dirs w)) = []).
  { intros p. exact Hnone. }
  assert (Hclear4 : forall p,
            clear_to_move name
              (walk (here (World (cwd w) (files w) p (dirs w))) d)
              (World (cwd w) (files w) p (dirs w)) = true).
  { intros p. exact Hclear. }
  destruct (fav_clean_up a).
  - unfold bind at 1. unfold bind at 1, popen_wait, run.
    rewrite classify_find_name.
    change (here w4) with (here w). cbn [files w4].
    destruct (find_delete false _ (here w) (files w)) as [fs5 st5] eqn:E5.
    assert (Hfs5 : fs5 = files w).
    { pose proof (find_name_nothing_to_delete name w Hplain Hnone) as H.
      now rewrite E5 in H. }
    subst fs5. cbn [ret]. unfold id. rewrite move_products_dir by apply Hclear4.
    cbn [snd files cwd w4]. now rewrite Hmov4.
  - unfold bind at 1. cbn [ret]. unfold id.
    rewrite move_products_dir by apply Hclear4.
    cbn [snd files cwd w4]. unfold w4. now rewrite Hmov4.
Qed.

(** X13: a favicon run with a destination makes no icon.  In a run that
    passes the checks, with a [move_to] ending in a slash that names
    another, existing directory, reached through existing directories,
    with no directory of the derived base name in the working directory
    or in the destination, with a plainly
    written base name, and with a [convert] that leaves the files alone
    when its input is missing, the files are at the end as the inner
    [create_logo] left them: the image was moved away before the resize,
    so no file of the derived base name, and no icon, is in the working
    directory. *)
Theorem favicon_with_destination_makes_no_icon (B : build_tex_file) (G : nat)
    (exec : programs) (a : favicon_args) (nodes : list node) (w : world)
    (d : string) :
  checked (favicon_logo_args a) nodes ->
  fav_move_to a = Some (d +:+ "/") -> walk (here w) d <> here w ->
  moves_freely (fav_fname a +:+ "_favicon") d w = true ->
  Glob.plain (fav_fname a) = true ->
  let name := fav_fname a +:+ "_favicon" in
  (forall fs : gmap location string,
     fs !! ((name +:+ ".png") :: here w) = None ->
     (exec (convert_argv name (fav_resolution a)) (getcwd w) fs).1 = fs) ->
  files (create_favicon B G exec a w).2
  = files (create_logo B G exec (favicon_logo_args a) w).2
  /\ forall n, legal_name n = true -> startswith n name = true ->
               files (create_favicon B G exec a w).2 !! (n :: here w) = None.
Proof.
  intros (Hn & Hlen & [b Hb] & [c Hc] & [t Ht]) Hd Hne Hclear Hplain name Hconv.
  apply moves_freely_clear in Hclear.
  set (a' := favicon_logo_args a).
  set (w1 := products exec a' (tex_document B G a' nodes b c t) w).
  assert (Hlogo : create_logo B G exec a' w = relocate a' w1)
    by (now apply create_logo_checked).
  assert (Hh1 : here w1 = here w) by apply products_here.
  assert (Hne1 : walk (here w1) d <> here w1) by (now rewrite Hh1).
  assert (Hclear1 : clear_to_move (fname a') (walk (here w1) d) w1 = true).
  { unfold w1. now rewrite products_here, clear_to_move_products. }
  destruct (relocate_dir_lookup a' d w1 Hd Hclear1) as (Hret & _ & Hfrom & _).
  specialize (Hfrom Hne1). rewrite Hh1 in Hfrom.
  pose proof (no_movable_left a' d w1 Hd Hne1 Hclear1) as Hnone.
  change (fname a') with name in Hnone, Hfrom.
  assert (Hw2 : here (relocate a' w1).2 = here w
                /\ getcwd (relocate a' w1).2 = getcwd w
                /\ clear_to_move name (walk (here (relocate a' w1).2) d)
                     (relocate a' w1).2 = true).
  { rewrite (relocate_dir a' d w1 Hd Hclear1). unfold here, getcwd. cbn [snd cwd].
    unfold w1. rewrite products_cwd. split; [reflexivity|].
    split; [reflexivity|].
    rewrite (clear_to_move_same _ _ w); [exact Hclear | reflexivity |].
    apply products_dirs. }
  destruct Hw2 as (Hh2 & Hg2 & Hclear2).
  assert (Hname : Glob.plain name = true) by (now apply plain_append).
  assert (Hpng : legal_name (name +:+ ".png") = true).
  { unfold name. rewrite append_assoc.
    apply legal_suffix; [exact Hplain | reflexivity | vm_compute; lia]. }
  assert (Hfav : create_favicon B G exec a w
                 = favicon_steps exec a name (relocate a' w1).2).
  { unfold create_favicon, bind. fold a'. rewrite Hlogo.
    destruct (relocate a' w1) as [o w2]. cbn [fst snd] in *. now rewrite Hret. }
  assert (Hfiles : files (favicon_steps exec a name (relocate a' w1).2).2
                   = files (relocate a' w1).2).
  { apply (favicon_steps_nothing_to_do exec a name d); auto.
    rewrite Hg2. apply Hconv. apply Hfrom; [exact Hpng|].
    apply startswith_append. }
  rewrite Hfav, Hlogo, Hfiles. split; [reflexivity|].
  intros n Hl Hp. now apply Hfrom.
Qed.

Lemma favicon_with_destination_makes_no_icon_witness :
  files (create_favicon Sample.builder 3 Sample.tools
           (Sample.favicon_call (Some "out/") (Some "")) Sample.dir1).2
    !! ["logo_favicon_32.ico"; "w"] = None.
Proof.
  refine (proj2 (favicon_with_destination_makes_no_icon Sample.builder 3
            Sample.tools (Sample.favicon_call (Some "out/") (Some ""))
            (Sample.rows "") Sample.dir1 "out" _ eq_refl _ eq_refl eq_refl _)
          "logo_favicon_32.ico" eq_refl eq_refl).
  - repeat split; eauto.
  - vm_compute. discriminate.
  - intros fs Hfs.
    change (fs !! ["logo_favicon.png"; "w"] = None) in Hfs.
    change ((let d := ["w"] in
             match fs !! ("logo_favicon.png" :: d) with
             | Some _ => (<[["logo_favicon_32.ico"; "w"] := "ico"]> fs, 0%Z)
             | None => (fs, 1%Z)
             end).1 = fs).
    cbv zeta. now rewrite Hfs.
Defined.


(** *** The move step and the directories *)

(** X14: in a call that passes the checks, with a [move_to] that ends in
    a slash and names an existing directory, reached through existing
    directories, and with no directory whose name starts with the base
    name in the working directory or in the destination, the call ends
    without an exception and every file left
    in the working directory after the cleanup whose name starts with the
    base name is in the destination, under the same name and with the
    same text, and (when the destination is not the working directory
    itself) no longer in the working directory; the other files of the
    working directory, every location that is neither such a file nor its
    destination, the directories and the process log are untouched. *)
Theorem slash_destination_moves_products (B : build_tex_file) (G : nat)
    (exec : programs) (a : logo_args) (nodes : list node)
    (background concept text : color) (w : world) (d : string) :
  node_info a = Some nodes -> length nodes = 7 ->
  background_color a = Some background -> concept_color a = Some concept ->
  text_color a = Some text ->
  move_to a = Some (d +:+ "/") ->
  moves_freely (fname a) d w = true ->
  let w1 := products exec a (tex_document B G a nodes background concept text) w in
  let r := create_logo B G exec a w in
  r.1 = Ret tt
  /\ (forall n, legal_name n = true -> startswith n (fname a) = true ->
                is_Some (files w1 !! (n :: here w)) ->
                files r.2 !! (n :: walk (here w) d) = files w1 !! (n :: here w))
  /\ (walk (here w) d <> here w ->
      forall n, legal_name n = true -> startswith n (fname a) = true ->
                files r.2 !! (n :: here w) = None)
  /\ (forall g, startswith g (fname a) = false ->
                files r.2 !! (g :: here w) = files w1 !! (g :: here w))
  /\ (forall k : location,
        (forall n, legal_name n = true -> startswith n (fname a) = true ->
                   k <> n :: here w /\ k <> n :: walk (here w) d) ->
        files r.2 !! k = files w1 !! k)
  /\ dirs r.2 = dirs w /\ procs r.2 = procs w1.
Proof.
  intros Hn Hlen Hb Hc Ht Hd Hclear w1 r. subst r.
  apply moves_freely_clear in Hclear.
  rewrite (create_logo_checked B G exec a nodes background concept text w)
    by assumption.
  fold w1.
  assert (Hclear1 : clear_to_move (fname a) (walk (here w1) d) w1 = true).
  { unfold w1. now rewrite products_here, clear_to_move_products. }
  destruct (relocate_dir_lookup a d w1 Hd Hclear1) as (H1 & H2 & H3 & H4).
  unfold w1 in H2, H3, H4. rewrite products_here in H2, H3, H4.
  fold w1 in H2, H3, H4.
  split; [exact H1|]. split; [exact H2|]. split; [exact H3|].
  split; [|split; [exact H4|]].
  - intros g Hg. apply H4. intros n _ Hp.
    split; intros Heq; assert (g = n) by congruence; congruence.
  - rewrite (relocate_dir a d w1 Hd Hclear1). cbn [snd dirs procs].
    split; [apply products_dirs | reflexivity].
Qed.

Lemma slash_destination_moves_products_witness :
  files (create_logo Sample.builder 3 Sample.tools
           (Sample.logo_call (Some "out/") ["aux"; "log"; "pdf"] (Sample.rows "x"))
           Sample.dir0).2 !! ["logo.png"; "out"; "w"]
  = Some "png".
Proof.
  refine (eq_trans
    (proj1 (proj2 (slash_destination_moves_products Sample.builder 3 Sample.tools
       (Sample.logo_call (Some "out/") ["aux"; "log"; "pdf"] (Sample.rows "x"))
       (Sample.rows "x") Sample.green Sample.green Sample.green Sample.dir0 "out"
       eq_refl eq_refl eq_refl eq_refl eq_refl eq_refl eq_refl))
       "logo.png" eq_refl eq_refl _) _).
  - vm_compute. eauto.
  - vm_compute. reflexivity.
Defined.

(** One rename towards a missing directory. *)
Lemma rename_missing_directory (w : world) (d n : string) :
  is_dir w (walk (here w) d) = false ->
  n ∈ entries (here w) w ->
  exists e, rename n (getcwd w +:+ "/" +:+ (d +:+ "/") +:+ n) w = (Raise e, w)
            /\ (e = FileNotFoundError \/ e = NotADirectoryError).
Proof.
  intros Hdir [Hl Hexists]%entries_exist. unfold rename.
  rewrite (resolve_name w n Hl), (resolve_target_dir w d n Hl).
  assert (Hne : n :: here w <> n :: walk (here w) d).
  { intros Heq. assert (Hd : walk (here w) d = here w) by congruence.
    rewrite Hd, is_dir_here in Hdir. discriminate. }
  assert (Hpar : exists e, no_parent w (n :: walk (here w) d) = Some e
                           /\ (e = FileNotFoundError \/ e = NotADirectoryError)).
  { unfold no_parent. cbn [tail]. rewrite Hdir. destruct (existsb _ _); eauto. }
  destruct Hpar as (e & Hpar & He). exists e. split; [|exact He].
  destruct (files w !! (n :: here w)) as [text|] eqn:Hfile.
  - rewrite decide_False by exact Hne. now rewrite Hpar.
  - destruct Hexists as [[? ?] | ->]; [discriminate|]. cbn [negb].
    rewrite decide_False by exact Hne. now rewrite Hpar.
Qed.

(** X15: the destination is never created.  In a call that passes the
    checks, with a [move_to] that ends in a slash and names a directory
    that does not exist, the first rename fails as soon as there is a file
    to move: the call raises [FileNotFoundError] ([NotADirectoryError]
    when a regular file stands where the directory should be) and nothing
    is moved, the world being as the cleanup left it.  When there is
    nothing to move, the missing directory goes unnoticed. *)
Theorem missing_destination_raises (B : build_tex_file) (G : nat)
    (exec : programs) (a : logo_args) (nodes : list node)
    (background concept text : color) (w : world) (d : string) :
  node_info a = Some nodes -> length nodes = 7 ->
  background_color a = Some background -> concept_color a = Some concept ->
  text_color a = Some text ->
  move_to a = Some (d +:+ "/") ->
  is_dir w (walk (here w) d) = false ->
  let w1 := products exec a (tex_document B G a nodes background concept text) w in
  let r := create_logo B G exec a w in
  (forall n, legal_name n = true -> startswith n (fname a) = true ->
             is_Some (files w1 !! (n :: here w)) ->
             r.2 = w1
             /\ (r.1 = Raise FileNotFoundError \/ r.1 = Raise NotADirectoryError))
  /\ ((forall n, startswith n (fname a) = true ->
                 files w1 !! (n :: here w) = None
                 /\ is_dir w (n :: here w) = false) ->
      r = (Ret tt, w1)).
Proof.
  intros Hn Hlen Hb Hc Ht Hd Hdir w1 r. subst r.
  rewrite (create_logo_checked B G exec a nodes background concept text w)
    by assumption.
  fold w1.
  assert (Hc1 : cwd w1 = cwd w) by apply products_cwd.
  assert (Hd1 : dirs w1 = dirs w) by apply products_dirs.
  assert (Hh1 : here w1 = here w) by apply products_here.
  unfold relocate. rewrite Hd, truthy_dir. cbn [default]. unfold id.
  unfold move_products, bind, listdir. cbn [fst snd]. rewrite resolve_here.
  split.
  - intros n Hl Hp Hin.
    destruct (List.filter (fun f => startswith f (fname a)) (entries (here w1) w1))
      as [|n0 names] eqn:Hlist.
    + exfalso.
      assert (Hin' : In n (List.filter (fun f => startswith f (fname a))
                                       (entries (here w1) w1))).
      { apply filter_In. split; [|exact Hp]. apply list_elem_of_In.
        unfold entries. apply elem_of_app. left.
        apply elem_of_file_entries. now rewrite Hh1. }
      now rewrite Hlist in Hin'.
    + assert (Hn0 : n0 ∈ entries (here w1) w1).
      { assert (Hin0 : In n0 (List.filter (fun f => startswith f (fname a))
                                          (entries (here w1) w1)))
          by (rewrite Hlist; now left).
        apply filter_In in Hin0 as [Hin0 _]. now apply list_elem_of_In. }
      cbn [for_each]. unfold bind.
      destruct (rename_missing_directory w1 d n0) as (e & -> & He);
        [|exact Hn0|].
      * now rewrite (is_dir_same w w1), Hh1.
      * cbn [fst snd]. split; [reflexivity|].
        destruct He as [-> | ->]; auto.
  - intros Hnone.
    destruct (List.filter (fun f => startswith f (fname a)) (entries (here w1) w1))
      as [|n0 names] eqn:Hlist; [reflexivity|].
    exfalso.
    assert (Hin0 : In n0 (List.filter (fun f => startswith f (fname a))
                                      (entries (here w1) w1)))
      by (rewrite Hlist; now left).
    apply filter_In in Hin0 as [Hin0 Hp]. apply list_elem_of_In in Hin0.
    apply entries_exist in Hin0 as [_ Hex]. destruct (Hnone n0 Hp) as [Hf Hdn].
    rewrite Hh1 in Hex. destruct Hex as [[? Hex] | Hex]; [congruence|].
    rewrite (is_dir_same w w1) in Hex by assumption. congruence.
Qed.

Lemma missing_destination_raises_witness :
  let a := Sample.logo_call (Some "new/") ["aux"; "log"; "pdf"] (Sample.rows "x") in
  let w1 := products Sample.tools a
              (tex_document Sample.builder 3 a (Sample.rows "x")
                 Sample.green Sample.green Sample.green) Sample.dir0 in
  let r := create_logo Sample.builder 3 Sample.tools a Sample.dir0 in
  r.2 = w1
  /\ (r.1 = Raise FileNotFoundError \/ r.1 = Raise NotADirectoryError).
Proof.
  refine (proj1 (missing_destination_raises Sample.builder 3 Sample.tools
       (Sample.logo_call (Some "new/") ["aux"; "log"; "pdf"] (Sample.rows "x"))
       (Sample.rows "x") Sample.green Sample.green Sample.green Sample.dir0 "new"
       eq_refl eq_refl eq_refl eq_refl eq_refl eq_refl eq_refl)
       "logo.png" eq_refl eq_refl _).
  vm_compute. eauto.
Defined.

(** *** A destination that is itself among the entries to move *)

(** A rename of another entry into the destination leaves the destination
    where it is. *)
Lemma rename_keeps_destination (c dn n : string) (w : world) :
  legal_name n = true -> legal_name dn = true -> n <> dn ->
  destination_kept c dn w ->
  let r := rename n (("/" +:+ c) +:+ "/" +:+ (dn +:+ "/") +:+ n) w in
  r.1 = Ret tt -> destination_kept c dn r.2.
Proof.
  intros Hl Hldn Hne (Hc & Hdir & Hfile). subst c. cbv zeta.
  fold (getcwd w).
  change (walk [] ("/" +:+ cwd w)) with (here w) in Hdir, Hfile.
  unfold rename.
  rewrite (resolve_name w n Hl), (resolve_target_dir w dn n Hl).
  rewrite (walk_legal (here w) dn Hldn).
  assert (Hst : n :: here w <> n :: dn :: here w).
  { intros Heq. apply (f_equal length) in Heq. cbn in Heq. lia. }
  assert (Hds : dn :: here w <> n :: here w) by congruence.
  assert (Hdt : dn :: here w <> n :: dn :: here w).
  { intros Heq. apply (f_equal length) in Heq. cbn in Heq. lia. }
  destruct (files w !! (n :: here w)) as [text|] eqn:Hsrc.
  - destruct (decide _) as [Heq|_]; [now destruct Hst|].
    destruct (no_parent w _); [cbn [fst]; discriminate|].
    destruct (is_dir w _); [cbn [fst]; discriminate|]. intros _.
    unfold destination_kept. cbn [snd cwd files dirs].
    split; [reflexivity|]. split; [exact Hdir|].
    change (walk [] ("/" +:+ cwd w)) with (here w).
    rewrite lookup_insert_ne, lookup_delete_ne by congruence. exact Hfile.
  - destruct (negb _); [cbn [fst]; discriminate|].
    destruct (decide _) as [Heq|_]; [now destruct Hst|].
    destruct (no_parent w _); [cbn [fst]; discriminate|].
    destruct (below (n :: here w) (n :: dn :: here w)); [cbn [fst]; discriminate|].
    destruct (bool_decide _); [cbn [fst]; discriminate|].
    destruct (_ && _); [cbn [fst]; discriminate|]. intros _.
    assert (Hup : below (n :: here w) (here w) = false).
    { destruct (below (n :: here w) (here w)) eqn:E; [|reflexivity].
      apply below_length in E. cbn in E. lia. }
    assert (Hside : below (n :: here w) (dn :: here w) = false).
    { destruct (below (n :: here w) (dn :: here w)) eqn:E; [|reflexivity].
      apply below_same_length in E; [congruence | reflexivity]. }
    unfold destination_kept. cbn [snd cwd files dirs]. rewrite Hup.
    split; [reflexivity|].
    change (walk [] ("/" +:+ cwd w)) with (here w). split.
    + apply elem_of_map. exists (dn :: here w). split; [|exact Hdir].
      unfold rebase. now rewrite Hside.
    + apply not_elem_of_list_to_map_1. intros Hin.
      apply list_elem_of_fmap in Hin as ([k' v'] & Heq & Hin).
      apply list_elem_of_fmap in Hin as ([k v] & Heq2 & Hin).
      apply elem_of_map_to_list in Hin. cbn in Heq2. injection Heq2 as -> _.
      cbn in Heq.
      destruct (below (n :: here w) k) eqn:E.
      * apply (rebase_length _ (n :: dn :: here w)) in E.
        rewrite <- Heq in E. cbn in E. lia.
      * unfold rebase in Heq. rewrite E in Heq. subst k. congruence.
Qed.

(** The destination cannot be renamed into itself. *)
Lemma rename_into_itself (c dn : string) (w : world) :
  legal_name dn = true -> destination_kept c dn w ->
  rename dn (("/" +:+ c) +:+ "/" +:+ (dn +:+ "/") +:+ dn) w = (Raise OSError, w).
Proof.
  intros Hl (Hc & Hdir & Hfile). subst c. fold (getcwd w).
  change (walk [] ("/" +:+ cwd w)) with (here w) in Hdir, Hfile.
  unfold rename.
  rewrite (resolve_name w dn Hl), (resolve_target_dir w dn dn Hl).
  rewrite (walk_legal (here w) dn Hl), Hfile.
  assert (Hd : is_dir w (dn :: here w) = true)
    by (now apply bool_decide_eq_true, elem_of_union_l).
  rewrite Hd. cbn [negb].
  rewrite decide_False
    by (intros Heq; apply (f_equal length) in Heq; cbn in Heq; lia).
  unfold no_parent. cbn [tail]. rewrite Hd.
  assert (Hb : below (dn :: here w) (dn :: dn :: here w) = true)
    by (apply bool_decide_eq_true; now exists [dn]).
  now rewrite Hb.
Qed.

(** So the move into a destination that is among the names to move ends
    with an exception of the operating system. *)
Lemma for_each_rename_into_itself (c dn : string) (names : list string) :
  forall w : world,
  legal_name dn = true -> Forall (fun n => legal_name n = true) names ->
  dn ∈ names -> destination_kept c dn w ->
  exists e,
    (for_each (fun f => rename f (("/" +:+ c) +:+ "/" +:+ (dn +:+ "/") +:+ f))
              names w).1 = Raise e
    /\ os_error e.
Proof.
  induction names as [|n names IH]; intros w Hl Hlegal Hin Hkept.
  { now apply elem_of_nil in Hin. }
  apply Forall_cons in Hlegal as [Hn Hlegal]. cbn [for_each]. unfold bind.
  destruct (decide (n = dn)) as [-> | Hne].
  - rewrite (rename_into_itself c dn w Hl Hkept). now exists OSError.
  - pose proof (rename_keeps_destination c dn n w Hn Hl Hne Hkept) as Hstep.
    assert (Hc : cwd w = c) by apply Hkept.
    pose proof (rename_frame n (("/" +:+ c) +:+ "/" +:+ (dn +:+ "/") +:+ n) w)
      as [_ Hout].
    cbv zeta in Hstep.
    destruct (rename n _ w) as [[[]|e] w'] eqn:E; cbn [fst snd] in *.
    + apply IH; auto.
      apply elem_of_cons in Hin as [-> | Hin]; [contradiction | exact Hin].
    + destruct Hout as [Hout | (e' & Hout & He)]; [discriminate|].
      injection Hout as ->. eauto.
Qed.

(** X16: [os.listdir] returns directories too.  In a call that passes
    the checks, when [move_to] is the name, followed by a slash, of an
    existing directory of the working directory, and that name starts
    with the base name, the directory is among the entries to move and
    cannot be moved into itself: the call ends with an exception of the
    operating system. *)
Theorem destination_among_entries_raises (B : build_tex_file) (G : nat)
    (exec : programs) (a : logo_args) (nodes : list node)
    (background concept text : color) (w : world) (dn : string) :
  node_info a = Some nodes -> length nodes = 7 ->
  background_color a = Some background -> concept_color a = Some concept ->
  text_color a = Some text ->
  move_to a = Some (dn +:+ "/") ->
  legal_name dn = true -> startswith dn (fname a) = true ->
  is_dir w (dn :: here w) = true ->
  let w1 := products exec a (tex_document B G a nodes background concept text) w in
  let r := create_logo B G exec a w in
  files w1 !! (dn :: here w) = None ->
  exists e, r.1 = Raise e /\ os_error e.
Proof.
  intros Hn Hlen Hb Hc Ht Hd Hl Hp Hisdir w1 r Hfile. subst r.
  assert (Hdir : dn :: here w ∈ dirs w).
  { apply bool_decide_eq_true, elem_of_union in Hisdir as [Hin | Hin];
      [exact Hin|].
    apply elem_of_list_to_set, tails_length in Hin. cbn in Hin. lia. }
  rewrite (create_logo_checked B G exec a nodes background concept text w)
    by assumption.
  fold w1.
  assert (Hc1 : cwd w1 = cwd w) by apply products_cwd.
  assert (Hd1 : dirs w1 = dirs w) by apply products_dirs.
  assert (Hh1 : here w1 = here w) by apply products_here.
  unfold relocate. rewrite Hd, truthy_dir. cbn [default]. unfold id.
  unfold move_products, bind, listdir. cbn [fst snd]. rewrite resolve_here.
  apply (for_each_rename_into_itself (cwd w1) dn).
  - exact Hl.
  - apply Forall_forall. intros n Hin.
    apply list_elem_of_In, filter_In in Hin as [Hin _].
    apply list_elem_of_In, entries_exist in Hin. apply Hin.
  - apply list_elem_of_In, filter_In. split; [|exact Hp].
    apply list_elem_of_In. unfold entries. apply elem_of_app. right.
    apply elem_of_dir_entries. split; [exact Hl|].
    apply bool_decide_eq_true, elem_of_union_l. now rewrite Hh1, Hd1.
  - split; [reflexivity|].
    change (walk [] ("/" +:+ cwd w1)) with (here w1). rewrite Hh1, Hd1. auto.
Qed.

Lemma destination_among_entries_raises_witness :
  exists e,
    (create_logo Sample.builder 3 Sample.tools
       (Sample.logo_call (Some "logo_out/") ["aux"; "log"; "pdf"] (Sample.rows "x"))
       Sample.dir2).1 = Raise e
    /\ os_error e.
Proof.
  refine (destination_among_entries_raises Sample.builder 3 Sample.tools
       (Sample.logo_call (Some "logo_out/") ["aux"; "log"; "pdf"] (Sample.rows "x"))
       (Sample.rows "x") Sample.green Sample.green Sample.green Sample.dir2
       "logo_out" eq_refl eq_refl eq_refl eq_refl eq_refl eq_refl eq_refl
       eq_refl eq_refl _).
  vm_compute. reflexivity.
Defined.

End MoreFacts.
